(** * gocb: the cluster connection layer ([cluster.go])

    A shallow embedding of [Cluster] and of the operations that own the
    lifetime of its connections: construction ([clusterFromOptions],
    [Connect], [parseExtraConnStrOptions]), bucket acquisition ([Bucket],
    [getClient]), provider resolution ([clusterOrRandomClient],
    [randomClient] and the five [get...Provider] accessors),
    [WaitUntilReady] and [Close].

    Conventions.
    - [time.Duration] is an [int64] count of nanoseconds: a [Z], with the
      wrap-around of the one multiplication the code performs written out.
    - A Go [error] is its message; [nil] is [None].
    - A Go map is a [gmap]; a [range] loop over it visits its entries in an
      order the language leaves open, so every function holding such a loop
      takes the order of the visit as an argument.
    - Calls that leave the package ([newClient], [buildConfig], [connect],
      [close], the tracer's reference count, the warnings of the log) are
      recorded in a trace; debug logging is left out.
    - The locks are not modelled as objects: a stretch of code run under
      [connectionsLock] is one step, and callers interleave between steps. *)

From Stdlib Require Import ZArith String Ascii List Lia.
From stdpp Require Import base option list gmap strings pretty.

Local Open Scope string_scope.
Local Open Scope Z_scope.

(** ** Errors and results *)

Definition error := string.

Inductive result (A : Type) : Type :=
| Ok (a : A)
| Err (e : error).
Arguments Ok {A} a.
Arguments Err {A} e.

Definition errNotConnected : error := "not connected to cluster".
Definition errClusterNotConnected : error := "cluster is not connected".
Definition errHTTPScheme : error :=
  "http scheme is not supported, use couchbase or couchbases instead".
Definition errNoGCCCP : error :=
  "the cluster does not support cluster-level queries " +:+
  "(only Couchbase Server 6.5 and later) and no bucket is open. If an older Couchbase Server version " +:+
  "is used, at least one bucket needs to be opened".
Definition errQueryTimeout : error := "query_timeout option must be a number".
Definition errAnalyticsTimeout : error := "analytics_timeout option must be a number".
Definition errSearchTimeout : error := "search_timeout option must be a number".
Definition errViewTimeout : error := "view_timeout option must be a number".

(** ** Durations *)

Definition Duration := Z.
Definition Millisecond : Duration := 1000000.
Definition Second : Duration := 1000 * Millisecond.

Definition minInt64 : Z := - 2 ^ 63.
Definition maxInt64 : Z := 2 ^ 63 - 1.

(** Two's complement reduction to 64 bits: the value of an [int64]
    expression whose mathematical value is [z]. *)
Definition wrap64 (z : Z) : Z := (z + 2 ^ 63) mod 2 ^ 64 - 2 ^ 63.

(** [time.Duration(val) * time.Millisecond] *)
Definition millis (val : Z) : Duration := wrap64 (val * Millisecond).

(** ** [strconv.ParseInt(s, 10, 64)]

    The Go library function, for base 10 and 64 bits: an optional sign, then
    one or more decimal digits and nothing else; the value has to fit. *)

Inductive numError := ErrSyntax | ErrRange.

Definition digitOf (c : ascii) : option Z :=
  let n := Z.of_N (N_of_ascii c) in
  if (48 <=? n) && (n <=? 57) then Some (n - 48) else None.

Fixpoint parseDigits (s : string) (acc : Z) : option Z :=
  match s with
  | EmptyString => Some acc
  | String c rest =>
      match digitOf c with
      | Some d => parseDigits rest (acc * 10 + d)
      | None => None
      end
  end.

Definition ParseUint (s : string) : Z + numError :=
  match s with
  | EmptyString => inr ErrSyntax
  | _ =>
      match parseDigits s 0 with
      | None => inr ErrSyntax
      | Some n => if n <? 2 ^ 64 then inl n else inr ErrRange
      end
  end.

Definition ParseInt (s : string) : Z + numError :=
  match s with
  | EmptyString => inr ErrSyntax
  | String c rest =>
      let '(neg, digits) :=
        if Ascii.eqb c "+" then (false, rest)
        else if Ascii.eqb c "-" then (true, rest)
        else (false, s) in
      match ParseUint digits with
      | inr ErrSyntax => inr ErrSyntax
      | inr ErrRange => inr ErrRange
      | inl un =>
          let cutoff := 2 ^ 63 in
          if negb neg && (cutoff <=? un) then inr ErrRange
          else if neg && (cutoff <? un) then inr ErrRange
          else inl (if neg then - un else un)
      end
  end.

(** ** Configuration *)

Inductive Authenticator :=
| PasswordAuthenticator (Username Password : string)
| CustomAuthenticator (id : nat).

Inductive Transcoder := JSONTranscoder | CustomTranscoder (id : nat).
Inductive RetryStrategy := BestEffortRetryStrategy | CustomRetryStrategy (id : nat).
Inductive requestTracer := ThresholdLoggingTracer | CustomTracer (id : nat).

Record IoConfig := {
  DisableMutationTokens : bool;
  DisableServerDurations : bool
}.

Record TimeoutsConfig := {
  tc_ConnectTimeout : Duration;
  tc_KVTimeout : Duration;
  tc_KVDurableTimeout : Duration;
  tc_ViewTimeout : Duration;
  tc_QueryTimeout : Duration;
  tc_AnalyticsTimeout : Duration;
  tc_SearchTimeout : Duration;
  tc_ManagementTimeout : Duration
}.

Record OrphanReporterConfig := {
  Disabled : bool;
  ReportInterval : Duration;
  SampleSize : Z
}.

Record SecurityConfig := {
  TLSRootCAs : option nat;
  TLSSkipVerify : bool
}.

Record InternalConfig := { TLSRootCAProvider : option nat }.

Record CircuitBreakerConfig := { cbc : option nat }.

Record ClusterOptions := {
  o_Authenticator : option Authenticator;
  o_Username : string;
  o_Password : string;
  o_TimeoutsConfig : TimeoutsConfig;
  o_Transcoder : option Transcoder;
  o_RetryStrategy : option RetryStrategy;
  o_Tracer : option requestTracer;
  o_OrphanReporterConfig : OrphanReporterConfig;
  o_CircuitBreakerConfig : CircuitBreakerConfig;
  o_IoConfig : IoConfig;
  o_SecurityConfig : SecurityConfig;
  o_InternalConfig : InternalConfig
}.

(** The fields of [stateBlock] that [clusterFromOptions] fills in. *)
Record stateBlock := {
  ConnectTimeout : Duration;
  QueryTimeout : Duration;
  AnalyticsTimeout : Duration;
  SearchTimeout : Duration;
  ViewTimeout : Duration;
  KvTimeout : Duration;
  KvDurableTimeout : Duration;
  DuraPollTimeout : Duration;
  sbTranscoder : Transcoder;
  UseMutationTokens : bool;
  ManagementTimeout : Duration;
  RetryStrategyWrapper : RetryStrategy;
  OrphanLoggerEnabled : bool;
  OrphanLoggerInterval : Duration;
  OrphanLoggerSampleSize : Z;
  UseServerDurations : bool;
  Tracer : option requestTracer;
  sbCircuitBreakerConfig : CircuitBreakerConfig;
  sbSecurityConfig : SecurityConfig;
  sbInternalConfig : InternalConfig
}.

Definition set_QueryTimeout (d : Duration) (s : stateBlock) : stateBlock :=
  {| ConnectTimeout := ConnectTimeout s; QueryTimeout := d;
     AnalyticsTimeout := AnalyticsTimeout s; SearchTimeout := SearchTimeout s;
     ViewTimeout := ViewTimeout s; KvTimeout := KvTimeout s;
     KvDurableTimeout := KvDurableTimeout s; DuraPollTimeout := DuraPollTimeout s;
     sbTranscoder := sbTranscoder s; UseMutationTokens := UseMutationTokens s;
     ManagementTimeout := ManagementTimeout s;
     RetryStrategyWrapper := RetryStrategyWrapper s;
     OrphanLoggerEnabled := OrphanLoggerEnabled s;
     OrphanLoggerInterval := OrphanLoggerInterval s;
     OrphanLoggerSampleSize := OrphanLoggerSampleSize s;
     UseServerDurations := UseServerDurations s; Tracer := Tracer s;
     sbCircuitBreakerConfig := sbCircuitBreakerConfig s;
     sbSecurityConfig := sbSecurityConfig s;
     sbInternalConfig := sbInternalConfig s |}.

Definition set_AnalyticsTimeout (d : Duration) (s : stateBlock) : stateBlock :=
  {| ConnectTimeout := ConnectTimeout s; QueryTimeout := QueryTimeout s;
     AnalyticsTimeout := d; SearchTimeout := SearchTimeout s;
     ViewTimeout := ViewTimeout s; KvTimeout := KvTimeout s;
     KvDurableTimeout := KvDurableTimeout s; DuraPollTimeout := DuraPollTimeout s;
     sbTranscoder := sbTranscoder s; UseMutationTokens := UseMutationTokens s;
     ManagementTimeout := ManagementTimeout s;
     RetryStrategyWrapper := RetryStrategyWrapper s;
     OrphanLoggerEnabled := OrphanLoggerEnabled s;
     OrphanLoggerInterval := OrphanLoggerInterval s;
     OrphanLoggerSampleSize := OrphanLoggerSampleSize s;
     UseServerDurations := UseServerDurations s; Tracer := Tracer s;
     sbCircuitBreakerConfig := sbCircuitBreakerConfig s;
     sbSecurityConfig := sbSecurityConfig s;
     sbInternalConfig := sbInternalConfig s |}.

Definition set_SearchTimeout (d : Duration) (s : stateBlock) : stateBlock :=
  {| ConnectTimeout := ConnectTimeout s; QueryTimeout := QueryTimeout s;
     AnalyticsTimeout := AnalyticsTimeout s; SearchTimeout := d;
     ViewTimeout := ViewTimeout s; KvTimeout := KvTimeout s;
     KvDurableTimeout := KvDurableTimeout s; DuraPollTimeout := DuraPollTimeout s;
     sbTranscoder := sbTranscoder s; UseMutationTokens := UseMutationTokens s;
     ManagementTimeout := ManagementTimeout s;
     RetryStrategyWrapper := RetryStrategyWrapper s;
     OrphanLoggerEnabled := OrphanLoggerEnabled s;
     OrphanLoggerInterval := OrphanLoggerInterval s;
     OrphanLoggerSampleSize := OrphanLoggerSampleSize s;
     UseServerDurations := UseServerDurations s; Tracer := Tracer s;
     sbCircuitBreakerConfig := sbCircuitBreakerConfig s;
     sbSecurityConfig := sbSecurityConfig s;
     sbInternalConfig := sbInternalConfig s |}.

Definition set_ViewTimeout (d : Duration) (s : stateBlock) : stateBlock :=
  {| ConnectTimeout := ConnectTimeout s; QueryTimeout := QueryTimeout s;
     AnalyticsTimeout := AnalyticsTimeout s; SearchTimeout := SearchTimeout s;
     ViewTimeout := d; KvTimeout := KvTimeout s;
     KvDurableTimeout := KvDurableTimeout s; DuraPollTimeout := DuraPollTimeout s;
     sbTranscoder := sbTranscoder s; UseMutationTokens := UseMutationTokens s;
     ManagementTimeout := ManagementTimeout s;
     RetryStrategyWrapper := RetryStrategyWrapper s;
     OrphanLoggerEnabled := OrphanLoggerEnabled s;
     OrphanLoggerInterval := OrphanLoggerInterval s;
     OrphanLoggerSampleSize := OrphanLoggerSampleSize s;
     UseServerDurations := UseServerDurations s; Tracer := Tracer s;
     sbCircuitBreakerConfig := sbCircuitBreakerConfig s;
     sbSecurityConfig := sbSecurityConfig s;
     sbInternalConfig := sbInternalConfig s |}.

Definition set_Tracer (t : option requestTracer) (s : stateBlock) : stateBlock :=
  {| ConnectTimeout := ConnectTimeout s; QueryTimeout := QueryTimeout s;
     AnalyticsTimeout := AnalyticsTimeout s; SearchTimeout := SearchTimeout s;
     ViewTimeout := ViewTimeout s; KvTimeout := KvTimeout s;
     KvDurableTimeout := KvDurableTimeout s; DuraPollTimeout := DuraPollTimeout s;
     sbTranscoder := sbTranscoder s; UseMutationTokens := UseMutationTokens s;
     ManagementTimeout := ManagementTimeout s;
     RetryStrategyWrapper := RetryStrategyWrapper s;
     OrphanLoggerEnabled := OrphanLoggerEnabled s;
     OrphanLoggerInterval := OrphanLoggerInterval s;
     OrphanLoggerSampleSize := OrphanLoggerSampleSize s;
     UseServerDurations := UseServerDurations s; Tracer := t;
     sbCircuitBreakerConfig := sbCircuitBreakerConfig s;
     sbSecurityConfig := sbSecurityConfig s;
     sbInternalConfig := sbInternalConfig s |}.

(** [gocbconnstr.ConnSpec]: the parsed connection string. *)
Record ConnSpec := {
  Scheme : string;
  Addresses : list (string * Z);
  specBucket : string;
  Options : gmap string (list string)
}.

Definition emptyConnSpec : ConnSpec :=
  {| Scheme := ""; Addresses := []; specBucket := ""; Options := ∅ |}.

(** ** Client state blocks and fingerprints *)

(** Modelled from the spec: [clientStateBlock], its [Hash] method and
    [newBucket] are declared in files of the package other than
    [cluster.go]. The spec's ConnectionFingerprint is "derived
    deterministically" from the bucket name and the configuration the bucket
    was cut from; nothing more is assumed here. [clusterLevelState] is the
    literal [clientStateBlock{BucketName: ""}] of [Connect], [bucketState sb
    name] the block that [newBucket(&sb, name)] embeds in the bucket. *)
Class ClientStates := {
  clientStateBlock : Type;
  clusterLevelState : clientStateBlock;
  bucketState : stateBlock -> string -> clientStateBlock;
  Hash : clientStateBlock -> string
}.

(** ** Capability providers *)

Definition ClusterState := Z.
Definition ClusterStateOnline : ClusterState := 1.

Inductive capability := Query | Analytics | Search | Diagnostics | HTTP.

(** A provider is known by the client it belongs to and by its class. *)
Record provider := { ofClient : nat; ofClass : capability }.

(** [waitUntilReadyProvider.WaitUntilReady(deadline, opts)]: blocks inside
    the transport and comes back with [nil] or with an error. *)
Definition waitUntilReadyProvider := Z -> ClusterState -> option error.

(** ** The transport behind a client

    What the methods of the [client] interface answer when [cluster.go]
    calls them. The interface is implemented outside [cluster.go]; the
    answers are inputs of the model. *)
Record Transport := {
  buildConfigErr : option error;
  connectErr : option error;
  connectedNow : bool * option error;
  gcccp : bool;
  closeErr : option error;
  providerErr : capability -> option error;
  waitProvider : result waitUntilReadyProvider
}.

(** ** The outside world *)

Inductive event :=
| EvTracerAddRef (t : requestTracer)
| EvTracerDecRef (t : requestTracer)
| EvNewClient (id : nat) (key : string)
| EvBuildConfig (id : nat)
| EvConnect (id : nat)
| EvClose (id : nat)
| EvLogWarn (msg : string).

(** [nextId] is the identity the next [newClient] receives (the address of
    the fresh object); [trace] lists the outside calls made so far, oldest
    first. [EvNewClient id key] is [newClient(c, sb)] returning the object
    [id], with [key] the value of [sb.Hash()]. *)
Record World := {
  nextId : nat;
  trace : list event
}.

Definition emit (ev : event) (w : World) : World :=
  {| nextId := nextId w; trace := trace w ++ [ev] |}.

Section Multiplexer.

Context `{CS : ClientStates}.

(** [gocbconnstr.Parse], from the library the package is built on. *)
Variable Parse : string -> result ConnSpec.

(** ** Clients *)

Record client := {
  cid : nat;
  state : clientStateBlock;
  session : Transport;
  bootstrapErr : option error
}.

Definition newClient (sb : clientStateBlock) (t : Transport) (w : World)
  : World * client :=
  ({| nextId := S (nextId w); trace := trace w ++ [EvNewClient (nextId w) (Hash sb)] |},
   {| cid := nextId w; state := sb; session := t; bootstrapErr := None |}).

Definition client_buildConfig (cli : client) (w : World) : World * option error :=
  (emit (EvBuildConfig (cid cli)) w, buildConfigErr (session cli)).

Definition client_connect (cli : client) (w : World) : World * option error :=
  (emit (EvConnect (cid cli)) w, connectErr (session cli)).

Definition client_close (cli : client) (w : World) : World * option error :=
  (emit (EvClose (cid cli)) w, closeErr (session cli)).

Definition setBootstrapError (e : error) (cli : client) : client :=
  {| cid := cid cli; state := state cli; session := session cli;
     bootstrapErr := Some e |}.

Definition getBootstrapError (cli : client) : option error := bootstrapErr cli.

Definition connected (cli : client) : bool * option error :=
  connectedNow (session cli).

Definition client_supportsGCCCP (cli : client) : bool := gcccp (session cli).

Definition client_getProvider (k : capability) (cli : client) : result provider :=
  match providerErr (session cli) k with
  | Some e => Err e
  | None => Ok {| ofClient := cid cli; ofClass := k |}
  end.

Definition getWaitUntilReadyProvider (cli : client) : result waitUntilReadyProvider :=
  waitProvider (session cli).

(** ** The cluster *)

Record Cluster := {
  cSpec : ConnSpec;
  auth : Authenticator;
  connections : gmap string client;
  clusterClient : option client;
  sb : stateBlock;
  supportsGCCCP : bool
}.

Definition set_cSpec (s : ConnSpec) (c : Cluster) : Cluster :=
  {| cSpec := s; auth := auth c; connections := connections c;
     clusterClient := clusterClient c; sb := sb c;
     supportsGCCCP := supportsGCCCP c |}.

Definition set_connections (m : gmap string client) (c : Cluster) : Cluster :=
  {| cSpec := cSpec c; auth := auth c; connections := m;
     clusterClient := clusterClient c; sb := sb c;
     supportsGCCCP := supportsGCCCP c |}.

Definition set_clusterClient (cc : option client) (c : Cluster) : Cluster :=
  {| cSpec := cSpec c; auth := auth c; connections := connections c;
     clusterClient := cc; sb := sb c; supportsGCCCP := supportsGCCCP c |}.

Definition set_sb (s : stateBlock) (c : Cluster) : Cluster :=
  {| cSpec := cSpec c; auth := auth c; connections := connections c;
     clusterClient := clusterClient c; sb := s;
     supportsGCCCP := supportsGCCCP c |}.

Definition set_supportsGCCCP (g : bool) (c : Cluster) : Cluster :=
  {| cSpec := cSpec c; auth := auth c; connections := connections c;
     clusterClient := clusterClient c; sb := sb c; supportsGCCCP := g |}.

(** ** [clusterFromOptions] *)

Definition orDefault (given default : Duration) : Duration :=
  if 0 <? given then given else default.

Definition clusterFromOptions (opts : ClusterOptions) (w : World) : World * Cluster :=
  let authenticator :=
    match o_Authenticator opts with
    | Some a => a
    | None => PasswordAuthenticator (o_Username opts) (o_Password opts)
    end in
  let tc := o_TimeoutsConfig opts in
  let connectTimeout := orDefault (tc_ConnectTimeout tc) (10000 * Millisecond) in
  let kvTimeout := orDefault (tc_KVTimeout tc) (2500 * Millisecond) in
  let kvDurableTimeout := orDefault (tc_KVDurableTimeout tc) (10000 * Millisecond) in
  let viewTimeout := orDefault (tc_ViewTimeout tc) (75000 * Millisecond) in
  let queryTimeout := orDefault (tc_QueryTimeout tc) (75000 * Millisecond) in
  let analyticsTimeout := orDefault (tc_AnalyticsTimeout tc) (75000 * Millisecond) in
  let searchTimeout := orDefault (tc_SearchTimeout tc) (75000 * Millisecond) in
  let managementTimeout := orDefault (tc_ManagementTimeout tc) (75000 * Millisecond) in
  let transcoder := default JSONTranscoder (o_Transcoder opts) in
  let retryStrategy := default BestEffortRetryStrategy (o_RetryStrategy opts) in
  let useMutationTokens := negb (DisableMutationTokens (o_IoConfig opts)) in
  let useServerDurations := negb (DisableServerDurations (o_IoConfig opts)) in
  let initialTracer := default ThresholdLoggingTracer (o_Tracer opts) in
  let w := emit (EvTracerAddRef initialTracer) w in
  (w,
   {| cSpec := emptyConnSpec;
      auth := authenticator;
      connections := ∅;
      clusterClient := None;
      sb := {| ConnectTimeout := connectTimeout;
               QueryTimeout := queryTimeout;
               AnalyticsTimeout := analyticsTimeout;
               SearchTimeout := searchTimeout;
               ViewTimeout := viewTimeout;
               KvTimeout := kvTimeout;
               KvDurableTimeout := kvDurableTimeout;
               DuraPollTimeout := 100 * Millisecond;
               sbTranscoder := transcoder;
               UseMutationTokens := useMutationTokens;
               ManagementTimeout := managementTimeout;
               RetryStrategyWrapper := retryStrategy;
               OrphanLoggerEnabled := negb (Disabled (o_OrphanReporterConfig opts));
               OrphanLoggerInterval := ReportInterval (o_OrphanReporterConfig opts);
               OrphanLoggerSampleSize := SampleSize (o_OrphanReporterConfig opts);
               UseServerDurations := useServerDurations;
               Tracer := Some initialTracer;
               sbCircuitBreakerConfig := o_CircuitBreakerConfig opts;
               sbSecurityConfig := o_SecurityConfig opts;
               sbInternalConfig := o_InternalConfig opts |};
      supportsGCCCP := false |}).

(** ** [parseExtraConnStrOptions] *)

Definition fetchOption (spec : ConnSpec) (name : string) : option string :=
  match Options spec !! name with
  | None => None
  | Some optValue => last optValue
  end.

(** One of the four blocks of the function: the option [name], when it is
    given, is parsed and stored with [set]; [msg] is the error of the block. *)
Definition timeoutOption (spec : ConnSpec) (name : string)
    (set : Duration -> stateBlock -> stateBlock) (msg : error) (c : Cluster)
  : Cluster * option error :=
  match fetchOption spec name with
  | Some valStr =>
      match ParseInt valStr with
      | inr _ => (c, Some msg)
      | inl val => (set_sb (set (millis val) (sb c)) c, None)
      end
  | None => (c, None)
  end.

Definition andThen (r : Cluster * option error)
    (k : Cluster -> Cluster * option error) : Cluster * option error :=
  match r with
  | (c, None) => k c
  | (c, Some e) => (c, Some e)
  end.

Definition parseExtraConnStrOptions (spec : ConnSpec) (c : Cluster)
  : Cluster * option error :=
  andThen (timeoutOption spec "query_timeout" set_QueryTimeout errQueryTimeout c)
    (fun c =>
  andThen (timeoutOption spec "analytics_timeout" set_AnalyticsTimeout errAnalyticsTimeout c)
    (fun c =>
  andThen (timeoutOption spec "search_timeout" set_SearchTimeout errSearchTimeout c)
    (fun c =>
  timeoutOption spec "view_timeout" set_ViewTimeout errViewTimeout c))).

(** ** [Connect] *)

Definition Connect (connStr : string) (opts : ClusterOptions) (t : Transport)
    (w : World) : World * result Cluster :=
  match Parse connStr with
  | Err e => (w, Err e)
  | Ok connSpec =>
      if decide (Scheme connSpec = "http") then (w, Err errHTTPScheme)
      else
        let '(w, cluster) := clusterFromOptions opts w in
        let cluster := set_cSpec connSpec cluster in
        match parseExtraConnStrOptions connSpec cluster with
        | (_, Some e) => (w, Err e)
        | (cluster, None) =>
            let '(w, cli) := newClient clusterLevelState t w in
            match client_buildConfig cli w with
            | (w, Some e) => (w, Err e)
            | (w, None) =>
                match client_connect cli w with
                | (w, Some e) => (w, Err e)
                | (w, None) =>
                    (w, Ok (set_supportsGCCCP (client_supportsGCCCP cli)
                              (set_clusterClient (Some cli) cluster)))
                end
            end
        end
  end.

(** ** Buckets *)

Record bucket := {
  bucketName : string;
  b_state : clientStateBlock;
  cachedClient : option client
}.

(** Modelled from the spec: [newBucket] (in [bucket.go], not in this
    development) copies the cluster's state block and records the bucket's
    name; of the copy, only the embedded client state block is read by
    [Bucket]. *)
Definition newBucket (s : stateBlock) (name : string) : bucket :=
  {| bucketName := name; b_state := bucketState s name; cachedClient := None |}.

(** Modelled from the spec: [Bucket.hash] (in [bucket.go]) is the
    fingerprint of the bucket: the [Hash] of its client state block, the
    same key [getClient] looks up. *)
Definition hash (b : bucket) : string := Hash (b_state b).

(** Modelled from the spec: [Bucket.cacheClient] (in [bucket.go]) binds the
    bucket to its connection handle. *)
Definition cacheClient (cli : client) (b : bucket) : bucket :=
  {| bucketName := bucketName b; b_state := b_state b; cachedClient := Some cli |}.

(** The first critical section of [Bucket]: a cluster level client that
    does not support GCCCP is closed and dropped. *)
Definition retireClusterClient (w : World) (c : Cluster) : World * Cluster :=
  match clusterClient c with
  | Some cc =>
      if negb (client_supportsGCCCP cc) then
        let '(w, err) := client_close cc w in
        let w :=
          match err with
          | Some e => emit (EvLogWarn ("Failed to close the cluster level client: " +:+ e)) w
          | None => w
          end in
        (w, set_clusterClient None c)
      else (w, c)
  | None => (w, c)
  end.

Definition getClient (c : Cluster) (s : clientStateBlock) : option client :=
  connections c !! Hash s.

(** The unlocked middle of [Bucket]: a new client is made, configured and
    connected; a failure of either step becomes its bootstrap error. *)
Definition createClient (s : clientStateBlock) (t : Transport) (w : World)
  : World * client :=
  let '(w, cli) := newClient s t w in
  match client_buildConfig cli w with
  | (w, None) =>
      match client_connect cli w with
      | (w, Some e) => (w, setBootstrapError e cli)
      | (w, None) => (w, cli)
      end
  | (w, Some e) => (w, setBootstrapError e cli)
  end.

(** The last critical section of [Bucket]. *)
Definition registerClient (b : bucket) (cli : client) (c : Cluster) : Cluster :=
  set_connections (<[hash b := cli]> (connections c)) c.

(** [t] is the transport a client created by this call would sit on. *)
Definition Bucket (name : string) (t : Transport) (w : World) (c : Cluster)
  : World * Cluster * bucket :=
  let b := newBucket (sb c) name in
  let '(w, c) := retireClusterClient w c in
  match getClient c (b_state b) with
  | Some cli => (w, c, cacheClient cli b)
  | None =>
      let '(w, cli) := createClient (b_state b) t w in
      let c := registerClient b cli c in
      (w, c, cacheClient cli b)
  end.

(** ** [randomClient] *)

Definition orFirst (firstError : option error) (e : error) : option error :=
  match firstError with
  | None => Some e
  | Some _ => firstError
  end.

(** The loop; [order] is the order in which [range] yields the entries. *)
Fixpoint scanClients (order : list (string * client)) (firstError : option error)
  : option client * option error :=
  match order with
  | [] => (None, firstError)
  | (_, c) :: rest =>
      match getBootstrapError c with
      | Some e => scanClients rest (orFirst firstError e)
      | None =>
          match connected c with
          | (_, Some e) => scanClients rest (orFirst firstError e)
          | (true, None) => (Some c, firstError)
          | (false, None) => scanClients rest firstError
          end
      end
  end.

Definition randomClient (order : list (string * client)) (c : Cluster)
  : result client :=
  if decide (size (connections c) = 0%nat) then Err errNotConnected
  else
    match scanClients order None with
    | (Some cli, _) => Ok cli
    | (None, None) => Err errNotConnected
    | (None, Some firstError) => Err firstError
    end.

(** ** [WaitUntilReady] *)

Record WaitUntilReadyOptions := { DesiredState : ClusterState }.

(** [now] is the reading of [time.Now()], in nanoseconds. The deadline is a
    [time.Time], which does not wrap. *)
Definition WaitUntilReady (now : Z) (timeout : Duration)
    (opts : option WaitUntilReadyOptions) (c : Cluster) : option error :=
  let opts := default {| DesiredState := 0 |} opts in
  match clusterClient c with
  | None => Some errClusterNotConnected
  | Some cli =>
      match getWaitUntilReadyProvider cli with
      | Err e => Some e
      | Ok provider =>
          let desiredState :=
            if decide (DesiredState opts = 0) then ClusterStateOnline
            else DesiredState opts in
          provider (now + timeout) desiredState
      end
  end.

(** ** [Close] *)

(** One round of the loop over the connections. *)
Definition closeEntry (st : World * Cluster * option error) (kv : string * client)
  : World * Cluster * option error :=
  let '(w, c, overallErr) := st in
  let '(key, conn) := kv in
  let '(w, err) := client_close conn w in
  let '(w, overallErr) :=
    match err with
    | Some e =>
        (emit (EvLogWarn ("Failed to close a client in cluster close: " +:+ e)) w, Some e)
    | None => (w, overallErr)
    end in
  (w, set_connections (delete key (connections c)) c, overallErr).

Definition Close (order : list (string * client)) (w : World) (c : Cluster)
  : World * Cluster * option error :=
  let '(w, c, overallErr) := foldl closeEntry (w, c, None) order in
  let '(w, overallErr) :=
    match clusterClient c with
    | Some cc =>
        let '(w, err) := client_close cc w in
        match err with
        | Some e =>
            (emit (EvLogWarn ("Failed to close cluster client in cluster close: " +:+ e)) w,
             Some e)
        | None => (w, overallErr)
        end
    | None => (w, overallErr)
    end in
  match Tracer (sb c) with
  | Some t => (emit (EvTracerDecRef t) w, set_sb (set_Tracer None (sb c)) c, overallErr)
  | None => (w, c, overallErr)
  end.

(** ** Provider resolution *)

Definition clusterOrRandomClient (order : list (string * client)) (c : Cluster)
  : result client :=
  match clusterClient c with
  | None =>
      match randomClient order c with
      | Err e => Err e
      | Ok cli => Ok cli
      end
  | Some cli =>
      if negb (client_supportsGCCCP cli) then Err errNoGCCCP else Ok cli
  end.

Definition resolveProvider (k : capability) (order : list (string * client))
    (c : Cluster) : result provider :=
  match clusterOrRandomClient order c with
  | Err e => Err e
  | Ok cli =>
      match client_getProvider k cli with
      | Err e => Err e
      | Ok provider => Ok provider
      end
  end.

Definition getDiagnosticsProvider := resolveProvider Diagnostics.
Definition getQueryProvider := resolveProvider Query.
Definition getAnalyticsProvider := resolveProvider Analytics.
Definition getSearchProvider := resolveProvider Search.
Definition getHTTPProvider := resolveProvider HTTP.

(** ** Sequences of acquisitions *)

(** Calls of [Bucket] made one after the other, each returning before the
    next one starts. *)
Fixpoint BucketCalls (calls : list (string * Transport)) (w : World) (c : Cluster)
  : World * Cluster * list bucket :=
  match calls with
  | [] => (w, c, [])
  | (name, t) :: rest =>
      let '(w, c, b) := Bucket name t w c in
      let '(w, c, bs) := BucketCalls rest w c in
      (w, c, b :: bs)
  end.

(** ** Concurrent callers of [Bucket]

    [connectionsLock] makes each critical section of [Bucket] and of
    [getClient] one indivisible step; between two of them other callers may
    run. A caller is at one of these places. *)
Inductive place :=
| AtRetire
| AtLookup
| AtCreate
| AtRegister (cli : client)
| Returned (b : bucket).

Record caller := {
  callerBucket : bucket;
  callerTransport : Transport;
  callerAt : place
}.

Definition enter (name : string) (t : Transport) (c : Cluster) : caller :=
  {| callerBucket := newBucket (sb c) name; callerTransport := t;
     callerAt := AtRetire |}.

Definition moveTo (p : place) (k : caller) : caller :=
  {| callerBucket := callerBucket k; callerTransport := callerTransport k;
     callerAt := p |}.

Definition stepCaller (k : caller) (w : World) (c : Cluster)
  : caller * World * Cluster :=
  let b := callerBucket k in
  match callerAt k with
  | AtRetire =>
      let '(w, c) := retireClusterClient w c in (moveTo AtLookup k, w, c)
  | AtLookup =>
      match getClient c (b_state b) with
      | Some cli => (moveTo (Returned (cacheClient cli b)) k, w, c)
      | None => (moveTo AtCreate k, w, c)
      end
  | AtCreate =>
      let '(w, cli) := createClient (b_state b) (callerTransport k) w in
      (moveTo (AtRegister cli) k, w, c)
  | AtRegister cli =>
      (moveTo (Returned (cacheClient cli b)) k, w, registerClient b cli c)
  | Returned _ => (k, w, c)
  end.

(** A schedule names, step by step, the caller that moves next. *)
Fixpoint runSchedule (schedule : list nat) (ks : list caller) (w : World)
    (c : Cluster) : list caller * World * Cluster :=
  match schedule with
  | [] => (ks, w, c)
  | i :: rest =>
      match ks !! i with
      | None => runSchedule rest ks w c
      | Some k =>
          let '(k, w, c) := stepCaller k w c in
          runSchedule rest (<[i := k]> ks) w c
      end
  end.

Definition returnedClient (k : caller) : option client :=
  match callerAt k with
  | Returned b => cachedClient b
  | _ => None
  end.

(** ** The claims' vocabulary: resolution and teardown *)

(** A handle the fallback scan may select: no bootstrap error, and it
    reports connected without an error. *)
Definition usable (cli : client) : bool :=
  match getBootstrapError cli, connected cli with
  | None, (true, None) => true
  | _, _ => false
  end.

(** The error the scan records at a handle, if any: its bootstrap error, or
    else the error of its connectivity check. *)
Definition recordedError (cli : client) : option error :=
  match getBootstrapError cli with
  | Some e => Some e
  | None => (connected cli).2
  end.

(** The fallback scan in the spec's words: the first usable handle, or else
    the first recorded error, or else "not connected". *)
Definition fallbackScan (handles : list client) : result client :=
  match List.find usable handles with
  | Some cli => Ok cli
  | None =>
      match omap recordedError handles with
      | e :: _ => Err e
      | [] => Err errNotConnected
      end
  end.

(** The errors [Close] meets, in the order it meets them. *)
Definition closeErrors (order : list (string * client)) (cc : option client)
  : list error :=
  omap (fun kv : string * client => closeErr (session kv.2)) order ++
  match cc with
  | Some cli => option_list (closeErr (session cli))
  | None => []
  end.

(** What closing one handle adds to the trace. *)
Definition closeEvents (prefix : string) (cli : client) : list event :=
  EvClose (cid cli) ::
  match closeErr (session cli) with
  | Some e => [EvLogWarn (prefix +:+ e)]
  | None => []
  end.

Definition closeTrace (order : list (string * client)) (cc : option client)
    (tracer : option requestTracer) : list event :=
  flat_map (fun kv : string * client =>
              closeEvents "Failed to close a client in cluster close: " kv.2) order ++
  match cc with
  | Some cli => closeEvents "Failed to close cluster client in cluster close: " cli
  | None => []
  end ++
  match tracer with
  | Some t => [EvTracerDecRef t]
  | None => []
  end.


(** ** The claims' vocabulary: the registry *)

(** What holds of the registry in every state the package reaches: each
    handle was made before now, sits under the fingerprint of its own state
    block, and no handle sits under two fingerprints. *)
Definition registryOK (w : World) (c : Cluster) : Prop :=
  (forall k cli, connections c !! k = Some cli ->
     (cid cli < nextId w)%nat /\ Hash (state cli) = k) /\
  (forall k1 k2 c1 c2,
     connections c !! k1 = Some c1 -> connections c !! k2 = Some c2 ->
     cid c1 = cid c2 -> k1 = k2).

(** The bootstrap error a client made on [t] ends up with. *)
Definition bootstrapOutcome (t : Transport) : option error :=
  match buildConfigErr t with
  | Some e => Some e
  | None => connectErr t
  end.

(** ** Accessors and managers *)

Definition authenticator (c : Cluster) : Authenticator := auth c.

Definition connSpec (c : Cluster) : ConnSpec := cSpec c.

(** The managers keep a pointer to the cluster as their provider; what they
    copy out of the cluster when they are made is its tracer and, for the
    index managers, its management timeout. *)
Record UserManager := { um_tracer : option requestTracer }.
Record BucketManager := { bm_tracer : option requestTracer }.
Record AnalyticsIndexManager := {
  aim_globalTimeout : Duration;
  aim_tracer : option requestTracer
}.
Record QueryIndexManager := {
  qim_globalTimeout : Duration;
  qim_tracer : option requestTracer
}.
Record SearchIndexManager := { sim_tracer : option requestTracer }.

Definition Users (c : Cluster) : UserManager := {| um_tracer := Tracer (sb c) |}.

Definition Buckets (c : Cluster) : BucketManager := {| bm_tracer := Tracer (sb c) |}.

Definition AnalyticsIndexes (c : Cluster) : AnalyticsIndexManager :=
  {| aim_globalTimeout := ManagementTimeout (sb c); aim_tracer := Tracer (sb c) |}.

Definition QueryIndexes (c : Cluster) : QueryIndexManager :=
  {| qim_globalTimeout := ManagementTimeout (sb c); qim_tracer := Tracer (sb c) |}.

Definition SearchIndexes (c : Cluster) : SearchIndexManager :=
  {| sim_tracer := Tracer (sb c) |}.

(** ** More vocabulary *)

(** A transport on which a new client bootstraps and reports connected. *)
Definition healthy (t : Transport) : Prop :=
  bootstrapOutcome t = None /\ connectedNow t = (true, None).

(** A caller with the fingerprint [key] that has not made its client yet. *)
Definition mayCreate (key : string) (k : caller) : bool :=
  bool_decide (hash (callerBucket k) = key) &&
  match callerAt k with
  | AtRetire | AtLookup | AtCreate => true
  | AtRegister _ | Returned _ => false
  end.

Definition pendingFor (key : string) (ks : list caller) : nat :=
  length (List.filter (mayCreate key) ks).

End Multiplexer.

(** ** Reading the trace *)

Definition isNewClientFor (key : string) (ev : event) : bool :=
  match ev with
  | EvNewClient _ k => bool_decide (k = key)
  | _ => false
  end.

(** How often a client was made (and then configured and connected) for the
    fingerprint [key]. *)
Definition factoryCalls (key : string) (tr : list event) : nat :=
  length (List.filter (isNewClientFor key) tr).

Definition isFactoryEvent (ev : event) : bool :=
  match ev with
  | EvNewClient _ _ | EvBuildConfig _ | EvConnect _ => true
  | _ => false
  end.

Definition isDecRef (ev : event) : bool :=
  match ev with
  | EvTracerDecRef _ => true
  | _ => false
  end.

Definition decRefCalls (tr : list event) : nat :=
  length (List.filter isDecRef tr).

(** ** The claims' vocabulary *)



(** The last value given for [name] is not a number. *)
Definition badOption (spec : ConnSpec) (name : string) : bool :=
  match fetchOption spec name with
  | Some valStr =>
      match ParseInt valStr with
      | inl _ => false
      | inr _ => true
      end
  | None => false
  end.

Definition timeoutKeys : list string :=
  ["query_timeout"; "analytics_timeout"; "search_timeout"; "view_timeout"].

Definition timeoutErrors : list error :=
  [errQueryTimeout; errAnalyticsTimeout; errSearchTimeout; errViewTimeout].


(** The handles closed in a trace, in the order of their closing. *)
Definition closedIds (tr : list event) : list nat :=
  omap (fun ev => match ev with EvClose id => Some id | _ => None end) tr.

(** The tracer events of a trace. *)
Definition isRelease (ev : event) : bool :=
  match ev with
  | EvTracerDecRef _ | EvClose _ => true
  | _ => false
  end.

(** The error of the first option, in the order query, analytics, search,
    view, whose last value is not a number. *)
Definition firstBadOption (spec : ConnSpec) : option error :=
  head (omap (fun nm : string * error =>
                if badOption spec nm.1 then Some nm.2 else None)
          (zip timeoutKeys timeoutErrors)).

(** ** A fingerprint for the examples *)

(** Modelled from the spec: the client state block of a bucket holds "the
    subset of ConfigBlock fields plus target bucket name that affects
    wire-level behavior (timeouts, auth, security, mutation-token/durability
    toggles)", as far as [newBucket] can see them in the state block it is
    given. *)
Record specStateBlock := {
  BucketName : string;
  fpTimeouts : list Duration;
  fpMutationTokens : bool;
  fpServerDurations : bool;
  fpTLSSkipVerify : bool
}.

Definition showBool (b : bool) : string := if b then "true" else "false".

(** Modelled from the spec: the fingerprint is "derived deterministically"
    from the fields of the block; it is printed here, field after field. *)
Definition specHash (s : specStateBlock) : string :=
  BucketName s +:+
  String.concat "" (List.map (fun d : Z => "-" +:+ pretty d) (fpTimeouts s)) +:+
  "-" +:+ showBool (fpMutationTokens s) +:+
  "-" +:+ showBool (fpServerDurations s) +:+
  "-" +:+ showBool (fpTLSSkipVerify s).

Definition specStates : ClientStates :=
  {| clientStateBlock := specStateBlock;
     clusterLevelState :=
       {| BucketName := ""; fpTimeouts := []; fpMutationTokens := false;
          fpServerDurations := false; fpTLSSkipVerify := false |};
     bucketState := fun s name =>
       {| BucketName := name;
          fpTimeouts := [ConnectTimeout s; KvTimeout s; KvDurableTimeout s;
                         ViewTimeout s; QueryTimeout s; AnalyticsTimeout s;
                         SearchTimeout s; ManagementTimeout s];
          fpMutationTokens := UseMutationTokens s;
          fpServerDurations := UseServerDurations s;
          fpTLSSkipVerify := TLSSkipVerify (sbSecurityConfig s) |};
     Hash := specHash |}.

(** ** Example inputs *)

Definition exTransport (build connect close : option error) (up : bool) (g : bool)
  : Transport :=
  {| buildConfigErr := build; connectErr := connect;
     connectedNow := (up, None); gcccp := g; closeErr := close;
     providerErr := fun _ => None;
     waitProvider := Ok (fun _ _ => None) |}.

Definition goodTransport : Transport := exTransport None None None true true.
Definition oldServerTransport : Transport := exTransport None None None true false.

Definition exOptions : ClusterOptions :=
  {| o_Authenticator := None; o_Username := "user"; o_Password := "pass";
     o_TimeoutsConfig :=
       {| tc_ConnectTimeout := 0; tc_KVTimeout := 0; tc_KVDurableTimeout := 0;
          tc_ViewTimeout := 0; tc_QueryTimeout := 0; tc_AnalyticsTimeout := 0;
          tc_SearchTimeout := 0; tc_ManagementTimeout := 0 |};
     o_Transcoder := None; o_RetryStrategy := None; o_Tracer := None;
     o_OrphanReporterConfig :=
       {| Disabled := false; ReportInterval := 0; SampleSize := 0 |};
     o_CircuitBreakerConfig := {| cbc := None |};
     o_IoConfig := {| DisableMutationTokens := false; DisableServerDurations := false |};
     o_SecurityConfig := {| TLSRootCAs := None; TLSSkipVerify := false |};
     o_InternalConfig := {| TLSRootCAProvider := None |} |}.

Definition exSpec (scheme : string) (opts : list (string * list string)) : ConnSpec :=
  {| Scheme := scheme; Addresses := [("localhost", 11210)]; specBucket := "";
     Options := list_to_map opts |}.


Definition exSpecAbc : ConnSpec := exSpec "couchbase" [("query_timeout", ["abc"])].



(** A parser that answers [spec] whatever it is given. *)
Definition exParse (spec : ConnSpec) : string -> result ConnSpec := fun _ => Ok spec.

Definition exWorld : World := {| nextId := 0; trace := [] |}.

(** The cluster [Connect] builds from [exOptions] on [t]. *)
Definition exCluster (t : Transport) : World * result Cluster :=
  Connect (CS := specStates) (exParse (exSpec "couchbase" [])) "couchbase://localhost"
    exOptions t exWorld.


(** Two buckets open on a connected cluster; closing either bucket's
    connection fails. *)
Definition exRegistry : World * Cluster :=
  match exCluster goodTransport with
  | (w, Ok c) =>
      let '(w, c, _) :=
        BucketCalls (CS := specStates)
          [("a", exTransport None None (Some "close of a failed") true true);
           ("b", exTransport None None (Some "close of b failed") true true)] w c in
      (w, c)
  | (w, Err _) => clusterFromOptions (CS := specStates) exOptions exWorld
  end.

(** A connected cluster with no bucket open yet. *)
Definition exConnected : World * Cluster :=
  match exCluster goodTransport with
  | (w, Ok c) => (w, c)
  | (w, Err _) => clusterFromOptions (CS := specStates) exOptions exWorld
  end.

(** The same against a server without GCCCP. *)
Definition exOldServer : World * Cluster :=
  match exCluster oldServerTransport with
  | (w, Ok c) => (w, c)
  | (w, Err _) => clusterFromOptions (CS := specStates) exOptions exWorld
  end.

Definition exOldClient : client (CS := specStates) :=
  {| cid := 0; state := clusterLevelState (ClientStates := specStates);
     session := oldServerTransport; bootstrapErr := None |}.

(** Three buckets on a cluster whose cluster level client was retired: the
    first fails to connect, the second is not connected at the moment, the
    third is up. *)
Definition exMixed : World * Cluster :=
  let '(w, c) := exOldServer in
  let '(w, c, _) :=
    BucketCalls (CS := specStates)
      [("a", exTransport None (Some "authentication failure") None false false);
       ("b", exTransport None None None false false);
       ("c", exTransport None None None true false)] w c in
  (w, c).

(** Two callers ask for the bucket "sales" at the same time and take their
    steps in turn. *)
Definition exRace : list (caller (CS := specStates)) * World * Cluster :=
  let '(w, c) := exConnected in
  runSchedule (CS := specStates) [0; 1; 0; 1; 0; 1; 0; 1]%nat
    [enter "sales" goodTransport c; enter "sales" goodTransport c] w c.

Definition exSalesKey : string :=
  Hash (ClientStates := specStates)
    (bucketState (ClientStates := specStates) (sb exConnected.2) "sales").

Definition exFailingTransport : Transport :=
  exTransport None (Some "authentication failure") None false true.

(** [exOptions] with a key-value timeout of five seconds. *)
Definition exOptionsKV : ClusterOptions :=
  {| o_Authenticator := None; o_Username := "user"; o_Password := "pass";
     o_TimeoutsConfig :=
       {| tc_ConnectTimeout := 0; tc_KVTimeout := 5 * Second; tc_KVDurableTimeout := 0;
          tc_ViewTimeout := 0; tc_QueryTimeout := 0; tc_AnalyticsTimeout := 0;
          tc_SearchTimeout := 0; tc_ManagementTimeout := 0 |};
     o_Transcoder := None; o_RetryStrategy := None; o_Tracer := None;
     o_OrphanReporterConfig :=
       {| Disabled := false; ReportInterval := 0; SampleSize := 0 |};
     o_CircuitBreakerConfig := {| cbc := None |};
     o_IoConfig := {| DisableMutationTokens := false; DisableServerDurations := false |};
     o_SecurityConfig := {| TLSRootCAs := None; TLSSkipVerify := false |};
     o_InternalConfig := {| TLSRootCAProvider := None |} |}.

Definition exStateBlockKV : stateBlock :=
  sb (clusterFromOptions (CS := specStates) exOptionsKV exWorld).2.



(** * Analytics query options ([analyticsquery_options.go]) *)

(** The values an [interface{}] of the options map holds. *)
#[warnings="-register-all"]
Inductive value :=
| VString (s : string)
| VBool (b : bool)
| VNumber (n : Z)
| VNull
| VArray (l : list value).

Definition AnalyticsScanConsistency := N.
Definition AnalyticsScanConsistencyNotBounded : AnalyticsScanConsistency := 1%N.
Definition AnalyticsScanConsistencyRequestPlus : AnalyticsScanConsistency := 2%N.

(** A [nil] slice or map is [None]; an empty one that was made is [Some]. *)
Record AnalyticsOptions := {
  ClientContextID : string;
  Priority : bool;
  PositionalParameters : option (list value);
  NamedParameters : option (gmap string value);
  Readonly : bool;
  ScanConsistency : AnalyticsScanConsistency;
  Raw : option (gmap string value);
  Timeout : Duration;
  aoRetryStrategy : option RetryStrategy
}.

(** The key under which a named parameter is stored:
    [if !strings.HasPrefix(key, "$") { key = "$" + key }]. *)
Definition namedKey (key : string) : string :=
  if String.prefix "$" key then key else "$" +:+ key.

Definition putNamed (m : gmap string value) (kv : string * value) : gmap string value :=
  <[namedKey kv.1 := kv.2]> m.

Definition putRaw (m : gmap string value) (kv : string * value) : gmap string value :=
  <[kv.1 := kv.2]> m.

Section AnalyticsQuery.

(** [makeInvalidArgumentsError], declared with the package's errors. *)
Variable makeInvalidArgumentsError : string -> error.

(** [uuid] is the value of [uuid.New().String()]; [namedOrder] and
    [rawOrder] are the orders in which the two [range] loops visit
    [NamedParameters] and [Raw]. *)
Definition toMap (uuid : string) (namedOrder rawOrder : list (string * value))
    (opts : AnalyticsOptions) : result (gmap string value) :=
  let execOpts : gmap string value := ∅ in
  let execOpts :=
    if decide (ClientContextID opts = "")
    then <["client_context_id" := VString uuid]> execOpts
    else <["client_context_id" := VString (ClientContextID opts)]> execOpts in
  let withConsistency : result (gmap string value) :=
    if decide (ScanConsistency opts <> 0%N) then
      if decide (ScanConsistency opts = AnalyticsScanConsistencyNotBounded)
      then Ok (<["scan_consistency" := VString "not_bounded"]> execOpts)
      else if decide (ScanConsistency opts = AnalyticsScanConsistencyRequestPlus)
      then Ok (<["scan_consistency" := VString "request_plus"]> execOpts)
      else Err (makeInvalidArgumentsError "unexpected consistency option")
    else Ok execOpts in
  match withConsistency with
  | Err e => Err e
  | Ok execOpts =>
      match PositionalParameters opts, NamedParameters opts with
      | Some _, Some _ =>
          Err (makeInvalidArgumentsError
                 "positional and named parameters must be used exclusively")
      | positional, named =>
          let execOpts :=
            match positional with
            | Some args => <["args" := VArray args]> execOpts
            | None => execOpts
            end in
          let execOpts :=
            match named with
            | Some _ => foldl putNamed execOpts namedOrder
            | None => execOpts
            end in
          let execOpts :=
            if Readonly opts then <["readonly" := VBool true]> execOpts
            else execOpts in
          let execOpts :=
            match Raw opts with
            | Some _ => foldl putRaw execOpts rawOrder
            | None => execOpts
            end in
          Ok execOpts
      end
  end.

End AnalyticsQuery.

(** [order] is an order in which a [range] over the map [o] may run. *)
Definition visits (o : option (gmap string value)) (order : list (string * value))
  : Prop :=
  order ≡ₚ map_to_list (default ∅ o).

(** The keys [toMap] writes on its own account. *)
Definition fixedKeys : list string :=
  ["client_context_id"; "scan_consistency"; "args"; "readonly"].

Definition validConsistency (opts : AnalyticsOptions) : Prop :=
  ScanConsistency opts = 0%N \/
  ScanConsistency opts = AnalyticsScanConsistencyNotBounded \/
  ScanConsistency opts = AnalyticsScanConsistencyRequestPlus.

(** The entries a loop of [toMap] visits: none when the map is [nil]. *)
Definition loopOrder (o : option (gmap string value)) (order : list (string * value))
  : list (string * value) :=
  match o with
  | Some _ => order
  | None => []
  end.

(** The name [toMap] sends for a scan consistency. *)
Definition consistencyName (c : AnalyticsScanConsistency) : option value :=
  if decide (c = AnalyticsScanConsistencyNotBounded) then Some (VString "not_bounded")
  else if decide (c = AnalyticsScanConsistencyRequestPlus) then Some (VString "request_plus")
  else None.

(** The client context id [toMap] sends. *)
Definition contextID (uuid : string) (opts : AnalyticsOptions) : string :=
  if decide (ClientContextID opts = "") then uuid else ClientContextID opts.

(** Example options: a named parameter with and one without the leading
    ["$"], request-plus consistency, and a [Raw] map that overrides
    [readonly]. *)
Definition exInvalidArguments (message : string) : error :=
  "invalid argument | " +:+ message.

Definition exNamed : gmap string value :=
  <["city" := VString "Oslo"]> (<["$limit" := VNumber 10]> ∅).

Definition exRaw : gmap string value := <["readonly" := VBool false]> ∅.

Definition exAnalyticsOptions : AnalyticsOptions :=
  {| ClientContextID := ""; Priority := false; PositionalParameters := None;
     NamedParameters := Some exNamed; Readonly := true;
     ScanConsistency := AnalyticsScanConsistencyRequestPlus;
     Raw := Some exRaw; Timeout := 0; aoRetryStrategy := None |}.

(** The same without [Raw]. *)
Definition exAnalyticsPlain : AnalyticsOptions :=
  {| ClientContextID := ""; Priority := false; PositionalParameters := None;
     NamedParameters := Some exNamed; Readonly := true;
     ScanConsistency := AnalyticsScanConsistencyRequestPlus;
     Raw := None; Timeout := 0; aoRetryStrategy := None |}.

(** Positional parameters together with an empty, non-nil map of named
    ones. *)
Definition exAnalyticsBoth : AnalyticsOptions :=
  {| ClientContextID := "q1"; Priority := false;
     PositionalParameters := Some [VNumber 1];
     NamedParameters := Some ∅; Readonly := false;
     ScanConsistency := 0%N;
     Raw := None; Timeout := 0; aoRetryStrategy := None |}.

(** Two names that become the same key. *)
Definition exAnalyticsClash : AnalyticsOptions :=
  {| ClientContextID := "q2"; Priority := false; PositionalParameters := None;
     NamedParameters := Some (<["a" := VNumber 1]> {["$" +:+ "a" := VNumber 2]});
     Readonly := false; ScanConsistency := 0%N;
     Raw := None; Timeout := 0; aoRetryStrategy := None |}.

(** Two options that are not numbers, the later-read one first. *)
Definition exSpecTwoBad : ConnSpec :=
  exSpec "couchbase" [("view_timeout", ["x"]); ("query_timeout", ["abc"])].

(** Two buckets opened one after the other on the connected cluster. *)
Definition exTwoBuckets : World * Cluster * list (bucket (CS := specStates)) :=
  BucketCalls (CS := specStates) [("a", goodTransport); ("b", goodTransport)]
    exConnected.1 exConnected.2.

(** The handle of the third bucket of [exMixed]. *)
Definition exMixedClient : client (CS := specStates) :=
  {| cid := 3;
     state := bucketState (ClientStates := specStates) (sb exMixed.2) "c";
     session := exTransport None None None true false;
     bootstrapErr := None |}.

(** The cluster level client of [exConnected]. *)
Definition exGoodClient : client (CS := specStates) :=
  {| cid := 0; state := clusterLevelState (ClientStates := specStates);
     session := goodTransport; bootstrapErr := None |}.

(** * Construction *)




Lemma orDefault_positive (given def : Duration) : 0 < def -> 0 < orDefault given def.
Proof.
  intros Hd. unfold orDefault. destruct (0 <? given) eqn:E; [ | exact Hd].
  apply Z.ltb_lt in E. exact E.
Qed.

Section ConstructionFacts.

Context `{CS : ClientStates}.
Variable Parse : string -> result ConnSpec.


Lemma clusterFromOptions_fresh opts w :
  connections (clusterFromOptions opts w).2 = ∅ ∧
  clusterClient (clusterFromOptions opts w).2 = None ∧
  is_Some (Tracer (sb (clusterFromOptions opts w).2)).
Proof. unfold clusterFromOptions; simpl. repeat split. eauto. Qed.

(** What one block of [parseExtraConnStrOptions] does. *)
Lemma timeoutOption_bad spec name set msg c :
  badOption spec name = true ->
  timeoutOption spec name set msg c = (c, Some msg).
Proof.
  unfold badOption, timeoutOption.
  destruct (fetchOption spec name) as [v|]; [ | discriminate].
  destruct (ParseInt v); [discriminate | reflexivity].
Qed.




(** [Connect] returns a cluster only at the end of its one successful path. *)
Lemma Connect_Ok_inv connStr opts t w w' c :
  Connect Parse connStr opts t w = (w', Ok c) ->
  exists spec c0,
    Parse connStr = Ok spec /\ Scheme spec <> "http" /\
    parseExtraConnStrOptions spec (set_cSpec spec (clusterFromOptions opts w).2)
      = (c0, None) /\
    buildConfigErr t = None /\ connectErr t = None /\
    sb c = sb c0 /\ connections c = connections c0 /\
    (exists cli, clusterClient c = Some cli /\ session cli = t /\
                 supportsGCCCP c = gcccp t).
Proof.
  unfold Connect. intros H.
  destruct (Parse connStr) as [spec|e]; [ | discriminate].
  destruct (decide (Scheme spec = "http")) as [|Hs]; [discriminate | ].
  destruct (clusterFromOptions opts w) as [w1 c1] eqn:Hc. simpl.
  destruct (parseExtraConnStrOptions spec (set_cSpec spec c1)) as [c0 [e|]] eqn:Hp;
    [discriminate | ].
  unfold newClient, client_buildConfig, client_connect in H. simpl in H.
  destruct (buildConfigErr t) eqn:Hb; [discriminate | ].
  destruct (connectErr t) eqn:Hn; [discriminate | ].
  inversion H; subst. exists spec, c0. simpl.
  repeat split; try assumption; try reflexivity.
  eexists; repeat split.
Qed.





End ConstructionFacts.

(** ** Construction: instances *)


(** [query_timeout=abc]: no cluster. *)
Example Connect_query_timeout_abc :
  Connect (CS := specStates) (exParse exSpecAbc) "couchbase://localhost?query_timeout=abc"
    exOptions goodTransport exWorld
  = (emit (EvTracerAddRef ThresholdLoggingTracer) exWorld, Err errQueryTimeout).
Proof. vm_compute. reflexivity. Qed.

Example ParseInt_examples :
  ParseInt "5000" = inl 5000 /\ ParseInt "-12" = inl (-12) /\
  ParseInt "+7" = inl 7 /\ ParseInt "abc" = inr ErrSyntax /\
  ParseInt "" = inr ErrSyntax /\ ParseInt "5s" = inr ErrSyntax /\
  ParseInt "1_000" = inr ErrSyntax /\ ParseInt "-" = inr ErrSyntax /\
  ParseInt "9223372036854775807" = inl maxInt64 /\
  ParseInt "9223372036854775808" = inr ErrRange /\
  ParseInt "-9223372036854775808" = inl minInt64 /\
  ParseInt "-9223372036854775809" = inr ErrRange.
Proof. vm_compute. repeat split. Qed.




(** * Provider resolution *)

Section ResolverFacts.

Context `{CS : ClientStates}.

(** The scan stops at the first usable handle. *)
Lemma scanClients_found order firstError cli e' :
  scanClients order firstError = (Some cli, e') ->
  exists pre key post,
    order = (pre ++ (key, cli) :: post)%list /\ usable cli = true /\
    Forall (fun kv : string * client => usable kv.2 = false) pre.
Proof.
  revert firstError. induction order as [|[k c] rest IH]; intros fe H; simpl in H.
  - discriminate.
  - unfold getBootstrapError, connected in H.
    destruct (bootstrapErr c) as [e|] eqn:Hb.
    + destruct (IH _ H) as (pre & key & post & -> & Hu & Hpre).
      exists ((k, c) :: pre), key, post. repeat split; auto.
      constructor; auto. unfold usable, getBootstrapError. simpl. rewrite Hb. reflexivity.
    + destruct (connectedNow (session c)) as [[|] [e|]] eqn:Hc.
      * destruct (IH _ H) as (pre & key & post & -> & Hu & Hpre).
        exists ((k, c) :: pre), key, post. repeat split; auto.
        constructor; auto.
        unfold usable, getBootstrapError, connected. simpl. rewrite Hb, Hc. reflexivity.
      * inversion H; subst. exists [], k, rest. repeat split; auto.
        unfold usable, getBootstrapError, connected. rewrite Hb, Hc. reflexivity.
      * destruct (IH _ H) as (pre & key & post & -> & Hu & Hpre).
        exists ((k, c) :: pre), key, post. repeat split; auto.
        constructor; auto.
        unfold usable, getBootstrapError, connected. simpl. rewrite Hb, Hc. reflexivity.
      * destruct (IH _ H) as (pre & key & post & -> & Hu & Hpre).
        exists ((k, c) :: pre), key, post. repeat split; auto.
        constructor; auto.
        unfold usable, getBootstrapError, connected. simpl. rewrite Hb, Hc. reflexivity.
Qed.

(** The scan against the spec's wording of it. *)
Lemma scanClients_fallbackScan order firstError :
  match List.find usable order.*2 with
  | Some cli => exists e', scanClients order firstError = (Some cli, e')
  | None =>
      scanClients order firstError =
        (None, match firstError with
               | Some e => Some e
               | None => head (omap recordedError order.*2)
               end)
  end.
Proof.
  revert firstError. induction order as [|[k c] rest IH]; intros fe.
  - destruct fe; reflexivity.
  - pose proof (IH fe) as IH2.
    pose proof (fun e => IH (orFirst fe e)) as IH1. clear IH.
    rewrite fmap_cons. cbn [scanClients List.find omap list_omap fst snd].
    unfold usable at 1, recordedError at 1, getBootstrapError, connected.
    destruct (bootstrapErr c) as [e|] eqn:Hb.
    + specialize (IH1 e).
      destruct (List.find usable rest.*2); [exact IH1 | ].
      rewrite IH1. destruct fe; reflexivity.
    + destruct (connectedNow (session c)) as [[|] [e|]] eqn:Hc; cbn [snd].
      * specialize (IH1 e).
        destruct (List.find usable rest.*2); [exact IH1 | ].
        rewrite IH1. destruct fe; reflexivity.
      * eauto.
      * specialize (IH1 e).
        destruct (List.find usable rest.*2); [exact IH1 | ].
        rewrite IH1. destruct fe; reflexivity.
      * exact IH2.
Qed.

Lemma perm_empty_registry (c : Cluster) (order : list (string * client)) :
  order ≡ₚ map_to_list (connections c) ->
  size (connections c) = 0%nat -> order = [].
Proof.
  intros Hp Hs. apply map_size_empty_iff in Hs. rewrite Hs, map_to_list_empty in Hp.
  apply Permutation_nil_r in Hp. exact Hp.
Qed.

Lemma randomClient_fallbackScan c order :
  order ≡ₚ map_to_list (connections c) ->
  randomClient order c = fallbackScan order.*2.
Proof.
  intros Hp. unfold randomClient, fallbackScan.
  destruct (decide (size (connections c) = 0%nat)) as [Hs|Hs].
  - rewrite (perm_empty_registry c order Hp Hs). reflexivity.
  - pose proof (scanClients_fallbackScan order None) as H.
    destruct (List.find usable order.*2) as [cli|].
    + destruct H as [e' ->]. reflexivity.
    + rewrite H. destruct (omap recordedError order.*2); reflexivity.
Qed.

Lemma find_usable_none (order : list (string * client)) :
  Forall (fun kv : string * client => usable kv.2 = false) order ->
  List.find usable order.*2 = None.
Proof.
  induction 1 as [|[k c] rest Hu _ IH]; simpl; [reflexivity | ].
  simpl in Hu. rewrite Hu. exact IH.
Qed.

Lemma omap_recorded_none (order : list (string * client)) :
  Forall (fun kv : string * client => recordedError kv.2 = None) order ->
  omap recordedError order.*2 = [].
Proof.
  induction 1 as [|[k c] rest Hu _ IH]; simpl; [reflexivity | ].
  simpl in Hu. rewrite Hu. exact IH.
Qed.

(** C3. The fallback scan of [randomClient], for any order in which the
    registry is visited: a selected handle has no bootstrap error, reports
    connected, is in the registry, and every handle visited before it was
    skipped; a usable handle anywhere makes the scan succeed, so a handle
    with a bootstrap error is never selected; without a usable handle the
    result is "not connected" when no error was recorded and is otherwise the
    first recorded error. *)
Theorem randomClient_scan c order :
  order ≡ₚ map_to_list (connections c) ->
  randomClient order c = fallbackScan order.*2 /\
  (forall cli, randomClient order c = Ok cli ->
     getBootstrapError cli = None /\ connected cli = (true, None) /\
     exists pre key post,
       order = (pre ++ (key, cli) :: post)%list /\
       Forall (fun kv : string * client => usable kv.2 = false) pre /\
       connections c !! key = Some cli) /\
  (Exists (fun kv : string * client => usable kv.2 = true) order ->
   exists cli, randomClient order c = Ok cli /\ getBootstrapError cli = None) /\
  (Forall (fun kv : string * client => usable kv.2 = false) order ->
   Forall (fun kv : string * client => recordedError kv.2 = None) order ->
   randomClient order c = Err errNotConnected) /\
  (forall pre key cli post e,
     order = (pre ++ (key, cli) :: post)%list ->
     Forall (fun kv : string * client => usable kv.2 = false) order ->
     Forall (fun kv : string * client => recordedError kv.2 = None) pre ->
     recordedError cli = Some e ->
     randomClient order c = Err e).
Proof.
  intros Hp.
  assert (Hsel : forall cli, randomClient order c = Ok cli ->
     getBootstrapError cli = None /\ connected cli = (true, None) /\
     exists pre key post,
       order = (pre ++ (key, cli) :: post)%list /\
       Forall (fun kv : string * client => usable kv.2 = false) pre /\
       connections c !! key = Some cli).
  { intros cli H. unfold randomClient in H.
    destruct (decide (size (connections c) = 0%nat)); [discriminate | ].
    destruct (scanClients order None) as [[x|] fe] eqn:Hscan.
    - inversion H; subst x.
      destruct (scanClients_found _ _ _ _ Hscan) as (pre & key & post & Ho & Hu & Hpre).
      assert (Hu' := Hu). unfold usable in Hu'.
      destruct (getBootstrapError cli); [discriminate | ].
      destruct (connected cli) as [[|] [e|]]; try discriminate.
      repeat split. exists pre, key, post. repeat split; auto.
      apply elem_of_map_to_list. rewrite <- Hp, Ho.
      apply list_elem_of_In, in_or_app. right. left. reflexivity.
    - destruct fe; discriminate. }
  split; [apply randomClient_fallbackScan; exact Hp | ].
  split; [exact Hsel | ].
  split; [ | split].
  - intros Hex. rewrite (randomClient_fallbackScan c order Hp).
    unfold fallbackScan.
    destruct (List.find usable order.*2) as [cli|] eqn:Hf.
    + exists cli. split; [reflexivity | ].
      apply find_some in Hf. destruct Hf as [_ Hu]. unfold usable in Hu.
      destruct (getBootstrapError cli); [discriminate | reflexivity].
    + exfalso. apply Exists_exists in Hex. destruct Hex as ([k x] & Hin & Hu).
      eapply find_none in Hf.
      * simpl in Hu. rewrite Hu in Hf. discriminate.
      * apply list_elem_of_In in Hin. apply (in_map snd) in Hin. exact Hin.
  - intros Hnu Hne. rewrite (randomClient_fallbackScan c order Hp).
    unfold fallbackScan. rewrite (find_usable_none _ Hnu), (omap_recorded_none _ Hne).
    reflexivity.
  - intros pre key cli post e Ho Hnu Hne He.
    rewrite (randomClient_fallbackScan c order Hp).
    unfold fallbackScan. rewrite (find_usable_none _ Hnu). subst order.
    rewrite fmap_app, omap_app, (omap_recorded_none _ Hne). simpl.
    rewrite He. reflexivity.
Qed.

(** C1, as the code has it. While the cluster level slot holds a handle that
    does not support GCCCP, resolving any capability fails with the
    "cluster does not support cluster-level queries" error: the handle is not
    used, and the registry is not consulted, whatever it holds. *)
Theorem resolve_without_GCCCP c cli order k :
  clusterClient c = Some cli ->
  client_supportsGCCCP cli = false ->
  clusterOrRandomClient order c = Err errNoGCCCP /\
  resolveProvider k order c = Err errNoGCCCP /\
  getQueryProvider order c = Err errNoGCCCP /\
  getAnalyticsProvider order c = Err errNoGCCCP /\
  getSearchProvider order c = Err errNoGCCCP /\
  getDiagnosticsProvider order c = Err errNoGCCCP /\
  getHTTPProvider order c = Err errNoGCCCP.
Proof.
  intros Hc Hg.
  assert (H : clusterOrRandomClient order c = Err errNoGCCCP).
  { unfold clusterOrRandomClient. rewrite Hc, Hg. reflexivity. }
  unfold getQueryProvider, getAnalyticsProvider, getSearchProvider,
    getDiagnosticsProvider, getHTTPProvider, resolveProvider.
  rewrite H. repeat split.
Qed.


End ResolverFacts.

(** * Teardown *)

Lemma decRefCalls_app (l1 l2 : list event) :
  decRefCalls (l1 ++ l2) = (decRefCalls l1 + decRefCalls l2)%nat.
Proof. unfold decRefCalls. rewrite List.filter_app, length_app. reflexivity. Qed.

Section TeardownFacts.

Context `{CS : ClientStates}.

Lemma decRefCalls_closeEvents prefix (cli : client) :
  decRefCalls (closeEvents prefix cli) = 0%nat.
Proof. unfold closeEvents. destruct (closeErr (session cli)); reflexivity. Qed.

Lemma decRefCalls_registry prefix (order : list (string * client)) :
  decRefCalls (flat_map (fun kv : string * client => closeEvents prefix kv.2) order)
  = 0%nat.
Proof.
  induction order as [|kv rest IH]; [reflexivity | ].
  cbn [flat_map]. rewrite decRefCalls_app, decRefCalls_closeEvents, IH. reflexivity.
Qed.

(** The loop of [Close]. *)
Lemma foldl_closeEntry order w c err :
  foldl closeEntry (w, c, err) order =
    ({| nextId := nextId w;
        trace := trace w ++
          flat_map (fun kv : string * client =>
            closeEvents "Failed to close a client in cluster close: " kv.2) order |},
     set_connections
       (foldl (fun m (kv : string * client) => delete kv.1 m) (connections c) order) c,
     match last (omap (fun kv : string * client => closeErr (session kv.2)) order) with
     | Some e => Some e
     | None => err
     end).
Proof.
  revert w c err. induction order as [|[k cli] rest IH]; intros w c err.
  - simpl. rewrite app_nil_r. destruct w, c. reflexivity.
  - cbn [foldl]. unfold closeEntry at 2, client_close, closeEvents.
    cbn [flat_map omap list_omap fst snd].
    destruct (closeErr (session cli)) as [e|] eqn:He.
    + rewrite IH. cbn [emit nextId trace connections set_connections].
      rewrite <- !app_assoc. cbn [app].
      rewrite last_cons.
      destruct (last (omap (fun kv : string * client => closeErr (session kv.2)) rest));
        reflexivity.
    + rewrite IH. cbn [emit nextId trace connections set_connections].
      rewrite <- !app_assoc. reflexivity.
Qed.

Lemma foldl_delete_lookup (m : gmap string client) (order : list (string * client)) k :
  foldl (fun m (kv : string * client) => delete kv.1 m) m order !! k
  = if decide (k ∈ order.*1) then None else m !! k.
Proof.
  revert m. induction order as [|[k' cli] rest IH]; intros m.
  - simpl. destruct (decide (k ∈ [])) as [H|]; [ | reflexivity].
    apply elem_of_nil in H. contradiction.
  - cbn [foldl]. rewrite IH, fmap_cons. cbn [fst].
    destruct (decide (k ∈ rest.*1)) as [Hin|Hnin].
    + rewrite decide_True by (apply elem_of_cons; auto). reflexivity.
    + destruct (decide (k = k')) as [->|Hne].
      * rewrite decide_True by (apply elem_of_cons; auto).
        apply lookup_delete_eq.
      * rewrite decide_False
          by (intros H; apply elem_of_cons in H; destruct H; contradiction).
        apply lookup_delete_ne. congruence.
Qed.

Lemma foldl_delete_all (m : gmap string client) (order : list (string * client)) :
  order ≡ₚ map_to_list m ->
  foldl (fun m (kv : string * client) => delete kv.1 m) m order = ∅.
Proof.
  intros Hp. apply map_eq. intros k. rewrite foldl_delete_lookup, lookup_empty.
  destruct (decide (k ∈ order.*1)) as [|Hnin]; [reflexivity | ].
  destruct (m !! k) as [cli|] eqn:Hk; [ | reflexivity].
  exfalso. apply Hnin. apply list_elem_of_fmap. exists (k, cli). split; [reflexivity | ].
  rewrite Hp. apply elem_of_map_to_list. exact Hk.
Qed.

Lemma closeEvents_close prefix (cli : client) :
  EvClose (cid cli) ∈ closeEvents prefix cli.
Proof. unfold closeEvents. apply list_elem_of_here. Qed.

Lemma closeEvents_logged prefix (cli : client) e :
  closeErr (session cli) = Some e ->
  EvLogWarn (prefix +:+ e) ∈ closeEvents prefix cli.
Proof.
  intros H. unfold closeEvents. rewrite H.
  apply list_elem_of_further, list_elem_of_here.
Qed.

(** After [Close] the registry is empty. *)
Lemma Close_empties order w c :
  order ≡ₚ map_to_list (connections c) ->
  connections (Close order w c).1.2 = ∅.
Proof.
  intros Hp. unfold Close. rewrite foldl_closeEntry, (foldl_delete_all _ _ Hp).
  cbn [clusterClient set_connections sb].
  destruct (clusterClient c) as [cc|];
    [unfold client_close; destruct (closeErr (session cc)) | ];
    destruct (Tracer (sb c)); reflexivity.
Qed.

(** C2, as the code has it. [Close] closes every connection of the registry
    and then the cluster level client, whatever the individual closes
    answer; it leaves the registry empty; every close error is logged; the
    error returned is the one met last (each error replaces the one held
    before), not the first; the tracer's reference is given back once, when
    the cluster still has its tracer, and the cluster's tracer is cleared. *)
Theorem Close_teardown order w c :
  order ≡ₚ map_to_list (connections c) ->
  exists w' c',
    Close order w c = (w', c', last (closeErrors order (clusterClient c))) /\
    trace w' = (trace w ++ closeTrace order (clusterClient c) (Tracer (sb c)))%list /\
    connections c' = ∅ /\ Tracer (sb c') = None /\
    (forall key cli, connections c !! key = Some cli ->
       EvClose (cid cli) ∈ closeTrace order (clusterClient c) (Tracer (sb c))) /\
    (forall cli, clusterClient c = Some cli ->
       EvClose (cid cli) ∈ closeTrace order (clusterClient c) (Tracer (sb c))) /\
    (forall e, e ∈ closeErrors order (clusterClient c) ->
       exists prefix,
         EvLogWarn (prefix +:+ e) ∈ closeTrace order (clusterClient c) (Tracer (sb c))) /\
    decRefCalls (trace w') =
      (decRefCalls (trace w) + if Tracer (sb c) is Some _ then 1 else 0)%nat.
Proof.
  intros Hp. unfold Close. rewrite foldl_closeEntry.
  rewrite (foldl_delete_all _ _ Hp).
  cbn [clusterClient set_connections sb].
  set (reg := flat_map (fun kv : string * client =>
            closeEvents "Failed to close a client in cluster close: " kv.2) order).
  set (errs := omap (fun kv : string * client => closeErr (session kv.2)) order).
  assert (Hreg : forall key cli, connections c !! key = Some cli ->
                   EvClose (cid cli) ∈ reg).
  { intros key cli Hk. apply elem_of_map_to_list in Hk. rewrite <- Hp in Hk.
    apply list_elem_of_In, in_flat_map. exists (key, cli).
    split; [apply list_elem_of_In; exact Hk | ].
    apply list_elem_of_In, closeEvents_close. }
  assert (Hlog : forall e, e ∈ errs ->
            EvLogWarn ("Failed to close a client in cluster close: " +:+ e) ∈ reg).
  { intros e He. apply list_elem_of_omap in He. destruct He as ([k cli] & Hin & Hc).
    apply list_elem_of_In, in_flat_map. exists (k, cli).
    split; [apply list_elem_of_In; exact Hin | ].
    apply list_elem_of_In, closeEvents_logged. exact Hc. }
  unfold closeErrors, closeTrace. fold reg. fold errs.
  destruct (clusterClient c) as [cc|] eqn:Hcc.
  - unfold client_close at 1. unfold closeEvents at 1 2 3 4. cbn [emit nextId trace].
    destruct (closeErr (session cc)) as [e|] eqn:He; cbn [option_list];
      destruct (Tracer (sb c)) as [t|] eqn:Ht;
      cbn [emit nextId trace sb set_sb set_Tracer Tracer connections];
      do 2 eexists;
      (split; [rewrite last_app; cbn [last]; try destruct (last errs); reflexivity | ]);
      cbn [emit nextId trace sb set_sb set_Tracer Tracer connections set_connections
           option_list];
      (split; [rewrite <- ?app_assoc; cbn [app]; rewrite ?app_nil_r; reflexivity | ]);
      (split; [reflexivity | ]); (split; [first [reflexivity | exact Ht] | ]);
      (split; [intros key cli Hk; apply elem_of_app; left; eauto | ]);
      (split; [intros cli [= <-]; apply elem_of_app; right;
               apply elem_of_app; left; apply list_elem_of_here | ]);
      (split;
        [intros x Hx; apply elem_of_app in Hx; destruct Hx as [Hx|Hx];
         [eexists; apply elem_of_app; left; apply Hlog; exact Hx
         | try (apply elem_of_nil in Hx; contradiction);
           apply list_elem_of_singleton in Hx; subst x; eexists;
           apply elem_of_app; right; apply elem_of_app; left;
           apply list_elem_of_further, list_elem_of_here]
        | ]);
      rewrite !decRefCalls_app; unfold reg; rewrite decRefCalls_registry;
      cbn; lia.
  - destruct (Tracer (sb c)) as [t|] eqn:Ht;
      cbn [emit nextId trace sb set_sb set_Tracer Tracer connections];
      do 2 eexists;
      (split; [rewrite app_nil_r; destruct (last errs); reflexivity | ]);
      cbn [emit nextId trace sb set_sb set_Tracer Tracer connections set_connections
           option_list];
      (split; [rewrite <- ?app_assoc; cbn [app]; rewrite ?app_nil_r; reflexivity | ]);
      (split; [reflexivity | ]); (split; [first [reflexivity | exact Ht] | ]);
      (split; [intros key cli Hk; apply elem_of_app; left; eauto | ]);
      (split; [intros cli [=] | ]);
      (split;
        [intros x Hx; rewrite app_nil_r in Hx; eexists; apply elem_of_app; left;
         apply Hlog; exact Hx | ]);
      rewrite !decRefCalls_app; unfold reg; rewrite decRefCalls_registry;
      cbn; lia.
Qed.

End TeardownFacts.

(** * Bucket acquisition *)

Lemma factoryCalls_app key (l1 l2 : list event) :
  factoryCalls key (l1 ++ l2) = (factoryCalls key l1 + factoryCalls key l2)%nat.
Proof. unfold factoryCalls. rewrite List.filter_app, length_app. reflexivity. Qed.

Lemma factoryCalls_quiet key (seg : list event) :
  Forall (fun ev => isFactoryEvent ev = false) seg -> factoryCalls key seg = 0%nat.
Proof.
  induction 1 as [|ev rest Hev _ IH]; [reflexivity | ].
  unfold factoryCalls in *. cbn [List.filter].
  destruct ev; simpl in Hev; try discriminate; simpl; exact IH.
Qed.

Section AcquisitionFacts.

Context `{CS : ClientStates}.

Lemma retireClusterClient_facts w c :
  connections (retireClusterClient w c).2 = connections c /\
  sb (retireClusterClient w c).2 = sb c /\
  nextId (retireClusterClient w c).1 = nextId w /\
  exists seg,
    trace (retireClusterClient w c).1 = (trace w ++ seg)%list /\
    Forall (fun ev => isFactoryEvent ev = false) seg.
Proof.
  unfold retireClusterClient.
  destruct (clusterClient c) as [cc|].
  - destruct (client_supportsGCCCP cc); cbn [negb].
    + repeat split. exists []. rewrite app_nil_r. auto.
    + unfold client_close. destruct (closeErr (session cc)) as [e|];
        cbn [emit fst snd nextId trace connections sb set_clusterClient];
        repeat split.
      * eexists. rewrite <- app_assoc. split; [reflexivity | ].
        repeat constructor.
      * eexists. split; [reflexivity | ]. repeat constructor.
  - repeat split. exists []. rewrite app_nil_r. auto.
Qed.

Lemma createClient_facts s t w :
  exists seg,
    createClient s t w =
      ({| nextId := S (nextId w);
          trace := trace w ++ EvNewClient (nextId w) (Hash s) :: seg |},
       {| cid := nextId w; state := s; session := t;
          bootstrapErr := bootstrapOutcome t |}) /\
    forall key, factoryCalls key seg = 0%nat.
Proof.
  unfold createClient, newClient, client_buildConfig, client_connect,
    setBootstrapError, bootstrapOutcome, emit.
  cbn [nextId trace cid state session bootstrapErr].
  destruct (buildConfigErr t) as [e|].
  - exists [EvBuildConfig (nextId w)].
    rewrite <- app_assoc. split; reflexivity.
  - destruct (connectErr t) as [e|];
      exists [EvBuildConfig (nextId w); EvConnect (nextId w)];
      rewrite <- !app_assoc; split; reflexivity.
Qed.

(** What one call of [Bucket] does, on a hit and on a miss. *)
Lemma Bucket_spec name t w c :
  let key := Hash (bucketState (sb c) name) in
  exists w' c' b cli seg,
    Bucket name t w c = (w', c', b) /\
    cachedClient b = Some cli /\ hash b = key /\ bucketName b = name /\
    sb c' = sb c /\
    trace w' = (trace w ++ seg)%list /\
    connections c' !! key = Some cli /\
    match connections c !! key with
    | Some cli0 =>
        cli = cli0 /\ connections c' = connections c /\ nextId w' = nextId w /\
        Forall (fun ev => isFactoryEvent ev = false) seg
    | None =>
        connections c' = <[key := cli]> (connections c) /\
        cid cli = nextId w /\ nextId w' = S (nextId w) /\
        state cli = bucketState (sb c) name /\ session cli = t /\
        getBootstrapError cli = bootstrapOutcome t /\
        forall key', factoryCalls key' seg = if decide (key' = key) then 1%nat else 0%nat
    end.
Proof.
  intros key. unfold Bucket.
  destruct (retireClusterClient_facts w c) as (Hconn & Hsb & Hid & seg0 & Htr & Hq).
  destruct (retireClusterClient w c) as [w1 c1]. cbn [fst snd] in *.
  unfold getClient, newBucket. cbn [b_state].
  rewrite Hconn. fold key.
  destruct (connections c !! key) as [cli0|] eqn:Hk.
  - exists w1, c1, (cacheClient cli0 (newBucket (sb c) name)), cli0, seg0.
    rewrite Hconn. repeat split; auto.
  - destruct (createClient_facts (bucketState (sb c) name) t w1) as (seg1 & Hcr & Hseg1).
    rewrite Hcr. fold key in Hcr |- *.
    do 5 eexists. split; [reflexivity | ].
    unfold registerClient, hash, cacheClient, newBucket.
    cbn [cachedClient b_state bucketName sb set_connections connections trace nextId
         cid state session bootstrapErr].
    fold key. rewrite Hconn, Htr, Hid, <- app_assoc.
    repeat split; auto.
    + apply lookup_insert_eq.
    + intros key'. rewrite factoryCalls_app, (factoryCalls_quiet _ _ Hq).
      change (EvNewClient (nextId w) key :: seg1)
        with ([EvNewClient (nextId w) key] ++ seg1)%list.
      rewrite factoryCalls_app, Hseg1. unfold factoryCalls. cbn.
      destruct (decide (key' = key)) as [->|Hne].
      * rewrite bool_decide_eq_true_2 by reflexivity. reflexivity.
      * rewrite bool_decide_eq_false_2 by congruence. reflexivity.
Qed.

Lemma Bucket_keeps name t w c k cli :
  connections c !! k = Some cli ->
  connections (Bucket name t w c).1.2 !! k = Some cli.
Proof.
  intros Hk.
  destruct (Bucket_spec name t w c)
    as (w' & c' & b & cli' & seg & -> & _ & _ & _ & _ & _ & _ & Hcase).
  cbn [fst snd].
  destruct (connections c !! Hash (bucketState (sb c) name)) as [cli0|] eqn:Hkey.
  - destruct Hcase as (_ & -> & _). exact Hk.
  - destruct Hcase as (-> & _). rewrite lookup_insert_ne; [exact Hk | ].
    intros <-. rewrite Hkey in Hk. discriminate.
Qed.

Lemma Bucket_sb name t w c : sb (Bucket name t w c).1.2 = sb c.
Proof.
  destruct (Bucket_spec name t w c)
    as (w' & c' & b & cli' & seg & -> & _ & _ & _ & Hsb & _).
  exact Hsb.
Qed.

Lemma Bucket_registryOK name t w c :
  registryOK w c ->
  registryOK (Bucket name t w c).1.1 (Bucket name t w c).1.2.
Proof.
  intros [Hold Hinj].
  destruct (Bucket_spec name t w c)
    as (w' & c' & b & cli & seg & -> & _ & _ & _ & _ & _ & _ & Hcase).
  cbn [fst snd]. unfold registryOK.
  destruct (connections c !! Hash (bucketState (sb c) name)) as [cli0|] eqn:Hkey.
  - destruct Hcase as (_ & -> & -> & _). split; assumption.
  - destruct Hcase as (-> & Hcid & -> & Hst & _).
    split.
    + intros k x Hk. destruct (decide (Hash (bucketState (sb c) name) = k)) as [<-|Hne].
      * rewrite lookup_insert_eq in Hk. inversion Hk; subst x.
        rewrite Hcid, Hst. split; [lia | reflexivity].
      * rewrite lookup_insert_ne in Hk by exact Hne.
        destruct (Hold _ _ Hk). split; [lia | assumption].
    + intros k1 k2 c1 c2 H1 H2 Heq.
      destruct (decide (Hash (bucketState (sb c) name) = k1)) as [<-|Hne1];
        destruct (decide (Hash (bucketState (sb c) name) = k2)) as [<-|Hne2];
        try reflexivity.
      * rewrite lookup_insert_eq in H1. rewrite lookup_insert_ne in H2 by exact Hne2.
        inversion H1; subst c1. destruct (Hold _ _ H2). lia.
      * rewrite lookup_insert_eq in H2. rewrite lookup_insert_ne in H1 by exact Hne1.
        inversion H2; subst c2. destruct (Hold _ _ H1). lia.
      * rewrite lookup_insert_ne in H1 by exact Hne1.
        rewrite lookup_insert_ne in H2 by exact Hne2. eauto.
Qed.

Lemma BucketCalls_keeps calls w c k cli :
  connections c !! k = Some cli ->
  connections (BucketCalls calls w c).1.2 !! k = Some cli.
Proof.
  revert w c. induction calls as [|[name t] rest IH]; intros w c Hk; [exact Hk | ].
  cbn [BucketCalls].
  pose proof (Bucket_keeps name t w c k cli Hk) as H1.
  destruct (Bucket name t w c) as [[w1 c1] b]. cbn [fst snd] in H1.
  specialize (IH w1 c1 H1).
  destruct (BucketCalls rest w1 c1) as [[w2 c2] bs]. exact IH.
Qed.

Lemma BucketCalls_sb calls w c : sb (BucketCalls calls w c).1.2 = sb c.
Proof.
  revert w c. induction calls as [|[name t] rest IH]; intros w c; [reflexivity | ].
  cbn [BucketCalls].
  pose proof (Bucket_sb name t w c) as H1.
  destruct (Bucket name t w c) as [[w1 c1] b]. cbn [fst snd] in H1.
  specialize (IH w1 c1).
  destruct (BucketCalls rest w1 c1) as [[w2 c2] bs]. cbn [fst snd] in *. congruence.
Qed.

Lemma BucketCalls_registryOK calls w c :
  registryOK w c ->
  registryOK (BucketCalls calls w c).1.1 (BucketCalls calls w c).1.2.
Proof.
  revert w c. induction calls as [|[name t] rest IH]; intros w c H; [exact H | ].
  cbn [BucketCalls].
  pose proof (Bucket_registryOK name t w c H) as H1.
  destruct (Bucket name t w c) as [[w1 c1] b]. cbn [fst snd] in H1.
  specialize (IH w1 c1 H1).
  destruct (BucketCalls rest w1 c1) as [[w2 c2] bs]. exact IH.
Qed.

(** Every bucket a sequence of calls returns is bound to the handle that the
    registry holds, at the end, under the bucket's fingerprint. *)
Lemma BucketCalls_handles calls w c b :
  b ∈ (BucketCalls calls w c).2 ->
  is_Some (cachedClient b) /\
  connections (BucketCalls calls w c).1.2 !! hash b = cachedClient b.
Proof.
  revert w c. induction calls as [|[name t] rest IH]; intros w c Hin.
  - apply elem_of_nil in Hin. contradiction.
  - cbn [BucketCalls] in *.
    destruct (Bucket_spec name t w c)
      as (w1 & c1 & b1 & cli & seg & HB & Hcli & Hh & _ & _ & _ & Hk & _).
    rewrite HB in *.
    pose proof (BucketCalls_keeps rest w1 c1 _ _ Hk) as Hkeep.
    specialize (IH w1 c1).
    destruct (BucketCalls rest w1 c1) as [[w2 c2] bs]. cbn [fst snd] in *.
    apply elem_of_cons in Hin. destruct Hin as [->|Hin]; [ | auto].
    rewrite Hh, Hcli. eauto.
Qed.

(** In a sequence of calls no fingerprint has a client made for it twice,
    and none is made for a fingerprint that has a handle already. *)
Lemma BucketCalls_factory calls w c :
  (forall key, factoryCalls key (trace w) <= 1)%nat ->
  (forall key, factoryCalls key (trace w) = 1%nat -> is_Some (connections c !! key)) ->
  (forall key, factoryCalls key (trace (BucketCalls calls w c).1.1) <= 1)%nat /\
  (forall key, factoryCalls key (trace (BucketCalls calls w c).1.1) = 1%nat ->
     is_Some (connections (BucketCalls calls w c).1.2 !! key)) /\
  (forall key, is_Some (connections c !! key) ->
     factoryCalls key (trace (BucketCalls calls w c).1.1) = factoryCalls key (trace w)).
Proof.
  revert w c. induction calls as [|[name t] rest IH]; intros w c Hle Hin.
  - cbn [BucketCalls fst snd]. auto.
  - cbn [BucketCalls].
    destruct (Bucket_spec name t w c)
      as (w1 & c1 & b1 & cli & seg & HB & _ & _ & _ & _ & Htr & Hk & Hcase).
    rewrite HB.
    assert (Hkeep : forall key, is_Some (connections c !! key) ->
                      is_Some (connections c1 !! key)).
    { intros key [x Hx]. exists x.
      pose proof (Bucket_keeps name t w c key x Hx) as H. rewrite HB in H. exact H. }
    assert (Hstep : forall key,
              factoryCalls key (trace w1) =
                (factoryCalls key (trace w) +
                 match connections c !! Hash (bucketState (sb c) name) with
                 | Some _ => 0
                 | None => if decide (key = Hash (bucketState (sb c) name)) then 1 else 0
                 end)%nat).
    { intros key. rewrite Htr, factoryCalls_app.
      destruct (connections c !! Hash (bucketState (sb c) name)).
      - destruct Hcase as (_ & _ & _ & Hq). rewrite (factoryCalls_quiet _ _ Hq). lia.
      - destruct Hcase as (_ & _ & _ & _ & _ & _ & Hf). rewrite Hf. reflexivity. }
    assert (Hle1 : forall key, (factoryCalls key (trace w1) <= 1)%nat).
    { intros key. rewrite Hstep.
      destruct (connections c !! Hash (bucketState (sb c) name)) eqn:Hkey.
      - specialize (Hle key). lia.
      - destruct (decide (key = Hash (bucketState (sb c) name))) as [->|].
        + specialize (Hle (Hash (bucketState (sb c) name))).
          destruct (factoryCalls (Hash (bucketState (sb c) name)) (trace w))
            as [|[|n]] eqn:Hn; [lia | | lia].
          destruct (Hin _ Hn) as [x Hx]. rewrite Hkey in Hx. discriminate.
        + specialize (Hle key). lia. }
    assert (Hin1 : forall key, factoryCalls key (trace w1) = 1%nat ->
                     is_Some (connections c1 !! key)).
    { intros key H1. rewrite Hstep in H1.
      destruct (connections c !! Hash (bucketState (sb c) name)) eqn:Hkey.
      - apply Hkeep, Hin. lia.
      - destruct (decide (key = Hash (bucketState (sb c) name))) as [->|].
        + eauto.
        + apply Hkeep, Hin. lia. }
    specialize (IH w1 c1 Hle1 Hin1).
    destruct (BucketCalls rest w1 c1) as [[w2 c2] bs]. cbn [fst snd] in *.
    destruct IH as (IH1 & IH2 & IH3).
    repeat split; auto.
    intros key Hkey. rewrite (IH3 key (Hkeep key Hkey)), Hstep.
    destruct (connections c !! Hash (bucketState (sb c) name)) eqn:Hk'; [lia | ].
    destruct (decide (key = Hash (bucketState (sb c) name))) as [->|]; [ | lia].
    destruct Hkey as [x Hx]. rewrite Hk' in Hx. discriminate.
Qed.

(** A caller that runs alone through its steps does what [Bucket] does. *)
Lemma Bucket_as_steps name t w c :
  exists k,
    runSchedule [0; 0; 0; 0]%nat [enter name t c] w c
      = ([k], (Bucket name t w c).1.1, (Bucket name t w c).1.2) /\
    callerAt k = Returned (Bucket name t w c).2.
Proof.
  unfold Bucket, enter.
  cbn [runSchedule lookup list_lookup stepCaller callerAt callerBucket callerTransport
       moveTo insert list_insert].
  destruct (retireClusterClient w c) as [w1 c1].
  cbn [runSchedule lookup list_lookup stepCaller callerAt callerBucket callerTransport
       moveTo insert list_insert].
  destruct (getClient c1 (b_state (newBucket (sb c) name))) as [cli|].
  - cbn [runSchedule lookup list_lookup stepCaller callerAt callerBucket callerTransport
       moveTo insert list_insert fst snd].
    eexists. split; reflexivity.
  - cbn [runSchedule lookup list_lookup stepCaller callerAt callerBucket callerTransport
       moveTo insert list_insert].
    destruct (createClient (b_state (newBucket (sb c) name)) t w1) as [w2 cli].
    cbn [runSchedule lookup list_lookup stepCaller callerAt callerBucket callerTransport
       moveTo insert list_insert fst snd].
    eexists. split; reflexivity.
Qed.

(** C4, as the code has it. When the calls of [Bucket] follow one another,
    no fingerprint has a client made for it more than once, none is made for
    a fingerprint the registry holds already, and callers with the same
    fingerprint are bound to the same handle. The client is made between the
    two critical sections, not inside one: a caller running alone through
    its four steps does what [Bucket] does. *)
Theorem sequential_acquisitions_create_once calls n c :
  let w0 := {| nextId := n; trace := [] |} in
  exists w' c' bs,
    BucketCalls calls w0 c = (w', c', bs) /\
    (forall key, factoryCalls key (trace w') <= 1)%nat /\
    (forall key, is_Some (connections c !! key) -> factoryCalls key (trace w') = 0%nat) /\
    (forall bi bj, bi ∈ bs -> bj ∈ bs -> hash bi = hash bj ->
       is_Some (cachedClient bi) /\ cachedClient bi = cachedClient bj) /\
    (forall name t w,
       exists k,
         runSchedule [0; 0; 0; 0]%nat [enter name t c] w c
           = ([k], (Bucket name t w c).1.1, (Bucket name t w c).1.2) /\
         callerAt k = Returned (Bucket name t w c).2).
Proof.
  intros w0.
  destruct (BucketCalls_factory calls w0 c) as (H1 & _ & H3).
  { intros key. cbn. lia. }
  { intros key H. cbn in H. discriminate. }
  pose proof (BucketCalls_handles calls w0 c) as Hh.
  destruct (BucketCalls calls w0 c) as [[w' c'] bs]. cbn [fst snd] in *.
  exists w', c', bs. repeat split.
  - exact H1.
  - intros key Hk. rewrite (H3 key Hk). reflexivity.
  - apply (Hh bi). assumption.
  - destruct (Hh bi) as [_ Hi]; [assumption | ].
    destruct (Hh bj) as [_ Hj]; [assumption | ]. congruence.
  - intros name t w. apply Bucket_as_steps.
Qed.


(** C6. Two calls of [Bucket] for one bucket name, one after the other
    under one configuration, are bound to the same handle, and the second
    call makes, configures and connects nothing, so that the two together
    make at most one client for the fingerprint; a third call under a
    configuration whose fingerprint differs is bound to another handle. *)
Theorem Bucket_same_config_same_handle name t1 t2 t3 w c s3 :
  registryOK w c ->
  Hash (bucketState s3 name) <> Hash (bucketState (sb c) name) ->
  exists w1 c1 b1 w2 c2 b2 w3 c3 b3 cli cli3 seg,
    Bucket name t1 w c = (w1, c1, b1) /\
    Bucket name t2 w1 c1 = (w2, c2, b2) /\
    Bucket name t3 w2 (set_sb s3 c2) = (w3, c3, b3) /\
    cachedClient b1 = Some cli /\ cachedClient b2 = Some cli /\
    trace w2 = (trace w1 ++ seg)%list /\
    Forall (fun ev => isFactoryEvent ev = false) seg /\
    (factoryCalls (Hash (bucketState (sb c) name)) (trace w2)
     <= factoryCalls (Hash (bucketState (sb c) name)) (trace w) + 1)%nat /\
    cachedClient b3 = Some cli3 /\ cid cli3 <> cid cli.
Proof.
  intros Hok Hne.
  pose proof (Bucket_registryOK name t1 w c Hok) as Hok1.
  destruct (Bucket_spec name t1 w c)
    as (w1 & c1 & b1 & cli & seg1 & HB1 & Hcli1 & _ & _ & Hsb1 & Htr1 & Hk1 & Hcase1).
  rewrite HB1 in Hok1. cbn [fst snd] in Hok1.
  pose proof (Bucket_registryOK name t2 w1 c1 Hok1) as Hok2.
  destruct (Bucket_spec name t2 w1 c1)
    as (w2 & c2 & b2 & cli2 & seg2 & HB2 & Hcli2 & _ & _ & Hsb2 & Htr2 & Hk2 & Hcase2).
  rewrite HB2 in Hok2. cbn [fst snd] in Hok2.
  rewrite Hsb1 in Hk2, Hcase2. rewrite Hk1 in Hcase2.
  destruct Hcase2 as (-> & Hconn2 & Hid2 & Hq2).
  destruct (Bucket_spec name t3 w2 (set_sb s3 c2))
    as (w3 & c3 & b3 & cli3 & seg3 & HB3 & Hcli3 & _ & _ & _ & _ & _ & Hcase3).
  cbn [sb set_sb connections] in Hcase3.
  exists w1, c1, b1, w2, c2, b2, w3, c3, b3, cli, cli3, seg2.
  repeat split; try assumption.
  - rewrite Htr2, Htr1, !factoryCalls_app, (factoryCalls_quiet _ _ Hq2).
    destruct (connections c !! Hash (bucketState (sb c) name)).
    + destruct Hcase1 as (_ & _ & _ & Hq1). rewrite (factoryCalls_quiet _ _ Hq1). lia.
    + destruct Hcase1 as (_ & _ & _ & _ & _ & _ & Hf). rewrite Hf.
      rewrite decide_True by reflexivity. lia.
  - destruct Hok2 as [Hold Hinj].
    destruct (connections c2 !! Hash (bucketState s3 name)) as [cli0|] eqn:Hk3.
    + destruct Hcase3 as (-> & _). intros Heq.
      apply Hne. eapply Hinj; eassumption.
    + destruct Hcase3 as (_ & Hcid3 & _).
      destruct (Hold _ _ Hk2) as [Hlt _]. lia.
Qed.

End AcquisitionFacts.

(** * Instances *)

(** C1 as stated fails: with an empty registry and a cluster level client
    that does not support GCCCP, resolving the query provider does not reach
    the fallback scan (which would answer "not connected to cluster"); it
    fails with the error of the GCCCP check. *)
Lemma resolve_old_server_not_fallback :
  connections exOldServer.2 = ∅ /\
  clusterClient exOldServer.2 = Some exOldClient /\
  client_supportsGCCCP exOldClient = false /\
  randomClient (CS := specStates) [] exOldServer.2 = Err errNotConnected /\
  getQueryProvider (CS := specStates) [] exOldServer.2 = Err errNoGCCCP /\
  getQueryProvider (CS := specStates) [] exOldServer.2 <> Err errNotConnected.
Proof.
  split; [vm_compute; reflexivity | ].
  split; [vm_compute; reflexivity | ].
  split; [reflexivity | ].
  split; [vm_compute; reflexivity | ].
  split; [vm_compute; reflexivity | ].
  vm_compute. discriminate.
Qed.

Lemma resolve_without_GCCCP_witness :
  clusterClient exOldServer.2 = Some exOldClient /\
  client_supportsGCCCP exOldClient = false /\
  getQueryProvider (CS := specStates) [] exOldServer.2 = Err errNoGCCCP /\
  getHTTPProvider (CS := specStates) [] exOldServer.2 = Err errNoGCCCP.
Proof.
  assert (H1 : clusterClient exOldServer.2 = Some exOldClient)
    by (vm_compute; reflexivity).
  assert (H2 : client_supportsGCCCP exOldClient = false) by reflexivity.
  destruct (resolve_without_GCCCP (CS := specStates) exOldServer.2 exOldClient []
              Query H1 H2) as (_ & _ & Hq & _ & _ & _ & Hh).
  auto.
Defined.

(** C2 as stated fails: with two connections whose closes both fail, the
    error [Close] returns is the second one met, not the first. *)
Lemma Close_returns_last_error :
  let order := map_to_list (connections exRegistry.2) in
  order ≡ₚ map_to_list (connections exRegistry.2) /\
  head (closeErrors order (clusterClient exRegistry.2)) = Some "close of a failed" /\
  (Close (CS := specStates) order exRegistry.1 exRegistry.2).2
    = Some "close of b failed" /\
  (Close (CS := specStates) order exRegistry.1 exRegistry.2).2
    <> head (closeErrors order (clusterClient exRegistry.2)).
Proof.
  intros order. split; [reflexivity | ].
  split; [vm_compute; reflexivity | ].
  split; [vm_compute; reflexivity | ].
  vm_compute. discriminate.
Qed.

Lemma Close_teardown_witness :
  let order := map_to_list (connections exRegistry.2) in
  order ≡ₚ map_to_list (connections exRegistry.2) /\
  exists w' c',
    Close (CS := specStates) order exRegistry.1 exRegistry.2
      = (w', c', Some "close of b failed") /\
    connections c' = ∅ /\
    decRefCalls (trace w') = 1%nat.
Proof.
  intros order. split; [reflexivity | ].
  destruct (Close_teardown (CS := specStates) order exRegistry.1 exRegistry.2
              (reflexivity _))
    as (w' & c' & HC & _ & He & _ & _ & _ & _ & Hd).
  exists w', c'. split; [ | split; [exact He | ]].
  - rewrite HC; f_equal; vm_compute; reflexivity.
  - rewrite Hd; vm_compute; reflexivity.
Defined.

Lemma randomClient_scan_witness :
  let order := reverse (map_to_list (connections exMixed.2)) in
  order ≡ₚ map_to_list (connections exMixed.2) /\
  randomClient (CS := specStates) order exMixed.2 = fallbackScan order.*2 /\
  exists cli, randomClient (CS := specStates) order exMixed.2 = Ok cli /\ cid cli = 3%nat.
Proof.
  intros order.
  assert (Hp : order ≡ₚ map_to_list (connections exMixed.2))
    by apply reverse_Permutation.
  split; [exact Hp | ].
  destruct (randomClient_scan (CS := specStates) exMixed.2 order Hp) as (Hs & _).
  split; [exact Hs | ].
  rewrite Hs. vm_compute. eexists. split; reflexivity.
Defined.

(** The scan on [exMixed] without its third bucket: the first error. *)
Example randomClient_first_error :
  let c := set_connections
             (delete (Hash (ClientStates := specStates)
                        (bucketState (ClientStates := specStates) (sb exMixed.2) "c"))
                (connections exMixed.2)) exMixed.2 in
  randomClient (CS := specStates) (map_to_list (connections c)) c
    = Err "authentication failure" /\
  randomClient (CS := specStates) (reverse (map_to_list (connections c))) c
    = Err "authentication failure".
Proof. vm_compute. split; reflexivity. Qed.

(** C4 as stated fails: two callers that both look the fingerprint up before
    either has registered its client each make, configure and connect one. *)
Lemma racing_callers_create_twice :
  factoryCalls exSalesKey (trace exConnected.1) = 0%nat /\
  factoryCalls exSalesKey (trace exRace.1.2) = 2%nat /\
  @cid specStates <$> (exRace.1.1 !! 0%nat ≫= @returnedClient specStates)
    = Some 1%nat /\
  @cid specStates <$> (exRace.1.1 !! 1%nat ≫= @returnedClient specStates)
    = Some 2%nat /\
  @cid specStates <$> (@connections specStates exRace.2 !! exSalesKey)
    = Some 2%nat.
Proof. vm_compute. repeat split. Qed.

Lemma sequential_acquisitions_create_once_witness :
  exists w' c' bs,
    BucketCalls (CS := specStates)
      [("sales", goodTransport); ("sales", goodTransport)]
      {| nextId := 1; trace := [] |} exConnected.2 = (w', c', bs) /\
    (factoryCalls exSalesKey (trace w') <= 1)%nat.
Proof.
  destruct (sequential_acquisitions_create_once (CS := specStates)
              [("sales", goodTransport); ("sales", goodTransport)] 1%nat exConnected.2)
    as (w' & c' & bs & HB & Hle & _).
  exists w', c', bs. split; [exact HB | apply Hle].
Defined.


Lemma exConnected_registryOK :
  registryOK (CS := specStates) exConnected.1 exConnected.2.
Proof.
  assert (H : connections exConnected.2 = ∅) by (vm_compute; reflexivity).
  split.
  - intros k cli Hk. rewrite H, lookup_empty in Hk. discriminate.
  - intros k1 k2 c1 c2 Hk. rewrite H, lookup_empty in Hk. discriminate.
Qed.

Lemma Bucket_same_config_same_handle_witness :
  KvTimeout exStateBlockKV <> KvTimeout (sb exConnected.2) /\
  Hash (ClientStates := specStates)
    (bucketState (ClientStates := specStates) exStateBlockKV "sales") <> exSalesKey /\
  exists w1 c1 b1 w2 c2 b2 w3 c3 b3 cli cli3,
    Bucket (CS := specStates) "sales" goodTransport exConnected.1 exConnected.2
      = (w1, c1, b1) /\
    Bucket (CS := specStates) "sales" goodTransport w1 c1 = (w2, c2, b2) /\
    Bucket (CS := specStates) "sales" goodTransport w2 (set_sb exStateBlockKV c2)
      = (w3, c3, b3) /\
    cachedClient b1 = Some cli /\ cachedClient b2 = Some cli /\
    cachedClient b3 = Some cli3 /\ cid cli3 <> cid cli.
Proof.
  split; [vm_compute; discriminate | ].
  assert (Hne : Hash (ClientStates := specStates)
            (bucketState (ClientStates := specStates) exStateBlockKV "sales")
          <> exSalesKey) by (vm_compute; discriminate).
  split; [exact Hne | ].
  destruct (Bucket_same_config_same_handle (CS := specStates) "sales"
              goodTransport goodTransport goodTransport
              exConnected.1 exConnected.2 exStateBlockKV
              exConnected_registryOK Hne)
    as (w1 & c1 & b1 & w2 & c2 & b2 & w3 & c3 & b3 & cli & cli3 & seg &
        H1 & H2 & H3 & H4 & H5 & _ & _ & _ & H6 & H7).
  exists w1, c1, b1, w2, c2, b2, w3, c3, b3, cli, cli3. auto 10.
Defined.


(** * Analytics query options *)

Section FoldInsert.

(** A loop that stores every visited entry under a key computed from its
    own key. *)
Variable f : string -> string.
Variable g : gmap string value -> string * value -> gmap string value.
Hypothesis g_spec : forall m kv, g m kv = <[f kv.1 := kv.2]> m.

Lemma foldl_put_notin (l : list (string * value)) (m : gmap string value) j :
  j ∉ f <$> l.*1 -> foldl g m l !! j = m !! j.
Proof.
  revert m. induction l as [|[k v] rest IH]; intros m Hj; [reflexivity | ].
  rewrite !fmap_cons in Hj. cbn [fst] in Hj.
  apply not_elem_of_cons in Hj. destruct Hj as [Hne Hj].
  cbn [foldl]. rewrite (IH _ Hj), g_spec. cbn [fst snd].
  apply lookup_insert_ne. congruence.
Qed.

Lemma foldl_put_in (l : list (string * value)) (m : gmap string value) k v :
  NoDup (f <$> l.*1) -> (k, v) ∈ l -> foldl g m l !! f k = Some v.
Proof.
  revert m. induction l as [|[k0 v0] rest IH]; intros m Hnd Hin.
  - apply elem_of_nil in Hin. contradiction.
  - rewrite !fmap_cons in Hnd. cbn [fst] in Hnd.
    apply NoDup_cons in Hnd. destruct Hnd as [Hfresh Hnd].
    cbn [foldl]. apply elem_of_cons in Hin. destruct Hin as [Heq|Hin].
    + inversion Heq; subst k0 v0.
      rewrite (foldl_put_notin _ _ _ Hfresh), g_spec. apply lookup_insert_eq.
    + apply IH; assumption.
Qed.

Lemma foldl_put_perm (l1 l2 : list (string * value)) (m : gmap string value) :
  NoDup (f <$> l1.*1) -> l1 ≡ₚ l2 -> foldl g m l1 = foldl g m l2.
Proof.
  intros Hnd Hp. apply map_eq. intros j.
  assert (Hnd2 : NoDup (f <$> l2.*1)) by (rewrite <- Hp; exact Hnd).
  destruct (decide (j ∈ f <$> l1.*1)) as [Hin|Hnin].
  - apply list_elem_of_fmap in Hin. destruct Hin as (k & -> & Hin).
    apply list_elem_of_fmap in Hin. destruct Hin as ([k' v] & -> & Hin).
    cbn [fst]. rewrite (foldl_put_in l1 m k' v Hnd Hin).
    rewrite Hp in Hin. rewrite (foldl_put_in l2 m k' v Hnd2 Hin). reflexivity.
  - rewrite (foldl_put_notin l1 m j Hnin).
    rewrite Hp in Hnin. rewrite (foldl_put_notin l2 m j Hnin). reflexivity.
Qed.

Lemma foldl_put_last (l : list (string * value)) (m : gmap string value) k v :
  foldl g m (l ++ [(k, v)]) !! f k = Some v.
Proof. rewrite foldl_app. cbn [foldl]. rewrite g_spec. apply lookup_insert_eq. Qed.

End FoldInsert.

Lemma namedKey_prefix k : String.prefix "$" (namedKey k) = true.
Proof.
  unfold namedKey. destruct (String.prefix "$" k) eqn:E; [exact E | ].
  cbn. destruct k; reflexivity.
Qed.

Lemma namedKey_idempotent k : namedKey (namedKey k) = namedKey k.
Proof. unfold namedKey at 1. rewrite namedKey_prefix. reflexivity. Qed.

Lemma namedKey_not_fixed k j : j ∈ fixedKeys -> namedKey k <> j.
Proof.
  intros Hj Heq. pose proof (namedKey_prefix k) as Hp. rewrite Heq in Hp.
  unfold fixedKeys in Hj.
  repeat (apply elem_of_cons in Hj; destruct Hj as [->|Hj]; [discriminate Hp | ]).
  apply elem_of_nil in Hj. contradiction.
Qed.

Lemma fixed_notin_named (order : list (string * value)) j :
  j ∈ fixedKeys -> j ∉ namedKey <$> order.*1.
Proof.
  intros Hj Hin. apply list_elem_of_fmap in Hin. destruct Hin as (k & -> & _).
  exact (namedKey_not_fixed k _ Hj eq_refl).
Qed.

Lemma visits_NoDup o order : visits o order -> NoDup order.*1.
Proof. intros Hv. unfold visits in Hv. rewrite Hv. apply NoDup_fst_map_to_list. Qed.

Lemma visits_elem (m : gmap string value) order k v :
  visits (Some m) order -> ((k, v) ∈ order <-> m !! k = Some v).
Proof.
  intros Hv. unfold visits in Hv. cbn in Hv. rewrite Hv.
  apply elem_of_map_to_list.
Qed.

Section AnalyticsFacts.

Variable mk : string -> error.

(** X1. The fault conditions of [toMap], and their order: a scan consistency
    other than 0, 1 or 2 is rejected first; otherwise positional and named
    parameters that are both non-nil (empty or not) are rejected; every
    other set of options yields a map. *)
Theorem toMap_errors uuid namedOrder rawOrder opts :
  (~ validConsistency opts ->
   toMap mk uuid namedOrder rawOrder opts
     = Err (mk "unexpected consistency option")) /\
  (validConsistency opts ->
   is_Some (PositionalParameters opts) -> is_Some (NamedParameters opts) ->
   toMap mk uuid namedOrder rawOrder opts
     = Err (mk "positional and named parameters must be used exclusively")) /\
  (validConsistency opts ->
   PositionalParameters opts = None \/ NamedParameters opts = None ->
   exists m, toMap mk uuid namedOrder rawOrder opts = Ok m).
Proof.
  unfold validConsistency, toMap, AnalyticsScanConsistencyNotBounded,
    AnalyticsScanConsistencyRequestPlus.
  split; [ | split].
  - intros Hbad.
    destruct (decide (ScanConsistency opts <> 0%N)) as [_|H0]; [ | exfalso].
    + destruct (decide (ScanConsistency opts = 1%N)) as [H1|_]; [tauto | ].
      destruct (decide (ScanConsistency opts = 2%N)) as [H2|_]; [tauto | ].
      reflexivity.
    + apply Hbad. left. destruct (decide (ScanConsistency opts = 0%N)); tauto.
  - intros Hok [args Hargs] [named Hnamed]. rewrite Hargs, Hnamed.
    destruct (decide (ScanConsistency opts <> 0%N)) as [Hn0|_]; [ | reflexivity].
    destruct (decide (ScanConsistency opts = 1%N)) as [|Hn1]; [reflexivity | ].
    destruct (decide (ScanConsistency opts = 2%N)) as [|Hn2]; [reflexivity | ].
    exfalso. destruct Hok as [?|[?|?]]; contradiction.
  - intros Hok Hone.
    destruct (decide (ScanConsistency opts <> 0%N)) as [Hn0|_].
    + destruct (decide (ScanConsistency opts = 1%N)) as [|Hn1];
        [ | destruct (decide (ScanConsistency opts = 2%N)) as [|Hn2];
            [ | exfalso; destruct Hok as [?|[?|?]]; contradiction]];
        destruct Hone as [-> | ->];
        try destruct (PositionalParameters opts); eauto.
    + destruct Hone as [-> | ->];
        try destruct (PositionalParameters opts); eauto.
Qed.

(** A map [toMap] returns: the fixed keys first, then the two loops, with
    the read-only flag set between them. *)
Lemma toMap_Ok_shape uuid namedOrder rawOrder opts m :
  toMap mk uuid namedOrder rawOrder opts = Ok m ->
  exists base : gmap string value,
    m = foldl putRaw
          (let named := foldl putNamed base
                          (loopOrder (NamedParameters opts) namedOrder) in
           if Readonly opts then <["readonly" := VBool true]> named else named)
          (loopOrder (Raw opts) rawOrder) /\
    base !! "client_context_id" = Some (VString (contextID uuid opts)) /\
    base !! "scan_consistency" = consistencyName (ScanConsistency opts) /\
    base !! "args" = VArray <$> PositionalParameters opts /\
    base !! "readonly" = None /\
    (forall j, String.prefix "$" j = true -> base !! j = None).
Proof.
  unfold toMap, contextID, consistencyName, AnalyticsScanConsistencyNotBounded,
    AnalyticsScanConsistencyRequestPlus.
  intros H.
  destruct (decide (ClientContextID opts = ""));
    (destruct (decide (ScanConsistency opts <> 0%N)) as [Hn0|H0];
     [destruct (decide (ScanConsistency opts = 1%N));
      [ | destruct (decide (ScanConsistency opts = 2%N)); [ | discriminate H]]
     | assert (E : ScanConsistency opts = 0%N)
         by (destruct (decide (ScanConsistency opts = 0%N)); tauto);
       rewrite E ]);
    destruct (PositionalParameters opts) as [args|];
    destruct (NamedParameters opts) as [named|]; try discriminate H;
    lazymatch type of H with
    | context [if Readonly opts then <["readonly" := VBool true]> ?Z else _] =>
        lazymatch Z with
        | foldl putNamed ?B _ => exists B
        | _ => exists Z
        end
    end;
    injection H as <-;
    (split; [destruct (Raw opts); reflexivity | ]);
    (split; [reflexivity | ]); (split; [reflexivity | ]);
    (split; [reflexivity | ]); (split; [reflexivity | ]);
    intros j Hj;
    rewrite ?lookup_insert_ne by (intros <-; discriminate Hj);
    apply lookup_empty.
Qed.

Lemma putRaw_spec m kv : putRaw m kv = <[id kv.1 := kv.2]> m.
Proof. reflexivity. Qed.

Lemma putNamed_spec m kv : putNamed m kv = <[namedKey kv.1 := kv.2]> m.
Proof. reflexivity. Qed.

Lemma loopOrder_visits o order :
  visits o order -> NoDup (loopOrder o order).*1.
Proof.
  intros Hv. destruct o; cbn; [exact (visits_NoDup _ _ Hv) | constructor].
Qed.

(** X4. Whatever [Raw] holds ends up in the map as it is: it overrides the
    fixed keys and the named parameters. *)
Theorem toMap_raw_wins uuid namedOrder rawOrder opts m raw k v :
  toMap mk uuid namedOrder rawOrder opts = Ok m ->
  Raw opts = Some raw -> visits (Raw opts) rawOrder ->
  raw !! k = Some v ->
  m !! k = Some v.
Proof.
  intros H Hraw Hv Hk.
  destruct (toMap_Ok_shape _ _ _ _ _ H) as (base & -> & _).
  rewrite Hraw in Hv |- *. cbn [loopOrder].
  change k with (id k).
  apply (foldl_put_in id putRaw putRaw_spec).
  - rewrite list_fmap_id. exact (visits_NoDup _ _ Hv).
  - apply (visits_elem raw); assumption.
Qed.

(** X2. The fixed keys of a returned map, when [Raw] does not set them: the
    client context id is the caller's, or the fresh UUID when the caller
    gave none; the scan consistency is named or left out; [args] holds the
    positional parameters; [readonly] is present only when asked for. Named
    parameters cannot take the place of any of them. *)
Theorem toMap_fixed_keys uuid namedOrder rawOrder opts m :
  toMap mk uuid namedOrder rawOrder opts = Ok m ->
  (forall j, j ∈ fixedKeys -> j ∉ (loopOrder (Raw opts) rawOrder).*1) ->
  m !! "client_context_id" = Some (VString (contextID uuid opts)) /\
  m !! "scan_consistency" = consistencyName (ScanConsistency opts) /\
  m !! "args" = VArray <$> PositionalParameters opts /\
  m !! "readonly" = (if Readonly opts then Some (VBool true) else None).
Proof.
  intros H Hraw.
  destruct (toMap_Ok_shape _ _ _ _ _ H) as (base & -> & Hid & Hsc & Hargs & Hro & _).
  assert (Hthrough : forall j, j ∈ fixedKeys -> j <> "readonly" ->
    foldl putRaw
      (let named := foldl putNamed base (loopOrder (NamedParameters opts) namedOrder) in
       if Readonly opts then <["readonly" := VBool true]> named else named)
      (loopOrder (Raw opts) rawOrder) !! j = base !! j).
  { intros j Hj Hne.
    rewrite (foldl_put_notin id putRaw putRaw_spec)
      by (rewrite list_fmap_id; apply Hraw; exact Hj).
    cbn zeta. destruct (Readonly opts);
      rewrite ?lookup_insert_ne by congruence;
      apply (foldl_put_notin namedKey putNamed putNamed_spec);
      apply fixed_notin_named; exact Hj. }
  rewrite !Hthrough
    by first [apply list_elem_of_In; simpl; tauto | discriminate].
  repeat (split; [assumption | ]).
  rewrite (foldl_put_notin id putRaw putRaw_spec)
    by (rewrite list_fmap_id; apply Hraw; apply list_elem_of_In; simpl; tauto).
  cbn zeta. destruct (Readonly opts).
  - apply lookup_insert_eq.
  - rewrite (foldl_put_notin namedKey putNamed putNamed_spec)
      by (apply fixed_notin_named; apply list_elem_of_In; simpl; tauto).
    exact Hro.
Qed.

(** X3. A named parameter is stored under its name with a leading ["$"], added
    when the name has none, provided no two names of the map become the
    same key and [Raw] does not set that key. *)
Theorem toMap_named_parameter uuid namedOrder rawOrder opts m named k v :
  toMap mk uuid namedOrder rawOrder opts = Ok m ->
  NamedParameters opts = Some named -> visits (NamedParameters opts) namedOrder ->
  NoDup (namedKey <$> namedOrder.*1) ->
  named !! k = Some v ->
  namedKey k ∉ (loopOrder (Raw opts) rawOrder).*1 ->
  m !! namedKey k = Some v /\ String.prefix "$" (namedKey k) = true.
Proof.
  intros H Hnamed Hv Hnd Hk Hraw.
  split; [ | apply namedKey_prefix].
  destruct (toMap_Ok_shape _ _ _ _ _ H) as (base & -> & _).
  rewrite (foldl_put_notin id putRaw putRaw_spec)
    by (rewrite list_fmap_id; exact Hraw).
  rewrite Hnamed in Hv |- *. cbn [loopOrder]. cbn zeta.
  assert (Hin : (k, v) ∈ namedOrder) by (apply (visits_elem named); assumption).
  destruct (Readonly opts).
  - rewrite lookup_insert_ne
      by (intros Heq; symmetry in Heq; revert Heq; apply namedKey_not_fixed;
          apply list_elem_of_In; simpl; tauto).
    apply (foldl_put_in namedKey putNamed putNamed_spec); assumption.
  - apply (foldl_put_in namedKey putNamed putNamed_spec); assumption.
Qed.

(** X5. The map does not depend on the order in which the two loops run, as
    long as no two named parameters become the same key. *)
Theorem toMap_order_independent uuid opts namedOrder1 rawOrder1 namedOrder2 rawOrder2 :
  visits (NamedParameters opts) namedOrder1 -> visits (NamedParameters opts) namedOrder2 ->
  visits (Raw opts) rawOrder1 -> visits (Raw opts) rawOrder2 ->
  NoDup (namedKey <$> namedOrder1.*1) ->
  toMap mk uuid namedOrder1 rawOrder1 opts = toMap mk uuid namedOrder2 rawOrder2 opts.
Proof.
  intros Hn1 Hn2 Hr1 Hr2 Hnd.
  assert (Hnamed : forall b : gmap string value,
            foldl putNamed b namedOrder1 = foldl putNamed b namedOrder2).
  { intros b. apply (foldl_put_perm namedKey putNamed putNamed_spec); [exact Hnd | ].
    unfold visits in *. rewrite Hn1, Hn2. reflexivity. }
  assert (Hrawp : forall b : gmap string value,
            foldl putRaw b rawOrder1 = foldl putRaw b rawOrder2).
  { intros b. apply (foldl_put_perm id putRaw putRaw_spec).
    - rewrite list_fmap_id. exact (visits_NoDup _ _ Hr1).
    - unfold visits in *. rewrite Hr1, Hr2. reflexivity. }
  unfold toMap.
  destruct (decide (ClientContextID opts = ""));
    (destruct (decide (ScanConsistency opts <> 0%N));
     [destruct (decide (ScanConsistency opts = AnalyticsScanConsistencyNotBounded));
      [ | destruct (decide (ScanConsistency opts = AnalyticsScanConsistencyRequestPlus));
          [ | reflexivity]] | ]);
    destruct (PositionalParameters opts) as [args|];
    destruct (NamedParameters opts) as [named|]; try reflexivity;
    rewrite ?Hnamed; destruct (Raw opts); rewrite ?Hrawp; reflexivity.
Qed.

Lemma toMap_total uuid namedOrder rawOrder opts :
  validConsistency opts ->
  PositionalParameters opts = None \/ NamedParameters opts = None ->
  exists m, toMap mk uuid namedOrder rawOrder opts = Ok m.
Proof.
  unfold validConsistency, toMap, AnalyticsScanConsistencyNotBounded,
    AnalyticsScanConsistencyRequestPlus.
  intros Hok Hone.
  destruct (decide (ScanConsistency opts <> 0%N)) as [Hn0|_].
  - destruct (decide (ScanConsistency opts = 1%N)) as [|Hn1];
      [ | destruct (decide (ScanConsistency opts = 2%N)) as [|Hn2];
          [ | exfalso; destruct Hok as [?|[?|?]]; contradiction]];
      destruct Hone as [-> | ->];
      try destruct (PositionalParameters opts); eauto.
  - destruct Hone as [-> | ->];
      try destruct (PositionalParameters opts); eauto.
Qed.

(** X6. Two named parameters that become the same key: when the map holds both
    [k] and ["$" + k], either may be visited last, and the one visited last
    is the one sent. The outcome then depends on the order of the loop. *)
Theorem toMap_named_collision uuid rawOrder opts k v1 v2 :
  String.prefix "$" k = false ->
  NamedParameters opts = Some (<[k := v1]> {["$" +:+ k := v2]}) ->
  PositionalParameters opts = None -> Raw opts = None ->
  validConsistency opts ->
  let order1 := [(k, v1); ("$" +:+ k, v2)] in
  let order2 := [("$" +:+ k, v2); (k, v1)] in
  visits (NamedParameters opts) order1 /\
  visits (NamedParameters opts) order2 /\
  exists m1 m2,
    toMap mk uuid order1 rawOrder opts = Ok m1 /\
    toMap mk uuid order2 rawOrder opts = Ok m2 /\
    m1 !! ("$" +:+ k) = Some v2 /\ m2 !! ("$" +:+ k) = Some v1.
Proof.
  intros Hk Hnamed Hpos Hraw Hok order1 order2.
  assert (Hne : k <> "$" +:+ k).
  { intros Heq. rewrite Heq in Hk. cbn in Hk. destruct k; discriminate. }
  assert (Hk1 : namedKey k = "$" +:+ k).
  { unfold namedKey. rewrite Hk. reflexivity. }
  assert (Hk2 : namedKey ("$" +:+ k) = "$" +:+ k).
  { rewrite <- Hk1. apply namedKey_idempotent. }
  assert (Hv1 : visits (NamedParameters opts) order1).
  { unfold visits. rewrite Hnamed.
    change (order1 ≡ₚ map_to_list (<[k := v1]> ({["$" +:+ k := v2]} : gmap string value))).
    rewrite map_to_list_insert by (apply lookup_singleton_ne; congruence).
    rewrite map_to_list_singleton. reflexivity. }
  assert (Hv2 : visits (NamedParameters opts) order2).
  { unfold visits in *. rewrite <- Hv1. apply perm_swap. }
  split; [exact Hv1 | split; [exact Hv2 | ]].
  destruct (toMap_total uuid order1 rawOrder opts Hok (or_introl Hpos)) as [m1 H1].
  destruct (toMap_total uuid order2 rawOrder opts Hok (or_introl Hpos)) as [m2 H2].
  exists m1, m2. split; [exact H1 | split; [exact H2 | ]].
  destruct (toMap_Ok_shape _ _ _ _ _ H1) as (b1 & -> & _).
  destruct (toMap_Ok_shape _ _ _ _ _ H2) as (b2 & -> & _).
  rewrite Hraw, Hnamed. cbn [loopOrder foldl]. cbn zeta.
  assert (Hro : "$" +:+ k <> "readonly").
  { rewrite <- Hk1. apply namedKey_not_fixed. apply list_elem_of_In. simpl. tauto. }
  unfold order1, order2. cbn [foldl]. rewrite !putNamed_spec. cbn [fst snd].
  rewrite Hk1, Hk2.
  destruct (Readonly opts);
    rewrite ?(lookup_insert_ne _ "readonly") by (intros E; apply Hro; symmetry; exact E);
    split; apply lookup_insert_eq.
Qed.

End AnalyticsFacts.

(** ** Analytics query options: instances *)

Lemma toMap_errors_witness :
  toMap exInvalidArguments "uuid-1" (map_to_list (∅ : gmap string value)) []
    exAnalyticsBoth
  = Err (exInvalidArguments "positional and named parameters must be used exclusively").
Proof.
  destruct (toMap_errors exInvalidArguments "uuid-1"
              (map_to_list (∅ : gmap string value)) [] exAnalyticsBoth)
    as (_ & H & _).
  apply H.
  - left. reflexivity.
  - eexists. reflexivity.
  - eexists. reflexivity.
Defined.

Lemma toMap_raw_wins_witness :
  exists m,
    toMap exInvalidArguments "uuid-1" (map_to_list exNamed) (map_to_list exRaw)
      exAnalyticsOptions = Ok m /\
    m !! "readonly" = Some (VBool false).
Proof.
  destruct (toMap exInvalidArguments "uuid-1" (map_to_list exNamed) (map_to_list exRaw)
              exAnalyticsOptions) as [m|e] eqn:H.
  - exists m. split; [reflexivity | ].
    apply (toMap_raw_wins exInvalidArguments "uuid-1" (map_to_list exNamed)
             (map_to_list exRaw) exAnalyticsOptions m exRaw "readonly" (VBool false) H).
    + reflexivity.
    + unfold visits. reflexivity.
    + vm_compute. reflexivity.
  - vm_compute in H. discriminate H.
Defined.

Lemma toMap_fixed_keys_witness :
  exists m,
    toMap exInvalidArguments "uuid-1" (map_to_list exNamed) [] exAnalyticsPlain = Ok m /\
    m !! "client_context_id" = Some (VString "uuid-1") /\
    m !! "scan_consistency" = Some (VString "request_plus") /\
    m !! "args" = None /\
    m !! "readonly" = Some (VBool true).
Proof.
  destruct (toMap exInvalidArguments "uuid-1" (map_to_list exNamed) []
              exAnalyticsPlain) as [m|e] eqn:H.
  - exists m. split; [reflexivity | ].
    apply (toMap_fixed_keys exInvalidArguments "uuid-1" (map_to_list exNamed) []
             exAnalyticsPlain m H).
    intros j _. cbn. apply not_elem_of_nil.
  - vm_compute in H. discriminate H.
Defined.

Lemma toMap_named_parameter_witness :
  exists m,
    toMap exInvalidArguments "uuid-1" (map_to_list exNamed) [] exAnalyticsPlain = Ok m /\
    m !! "$city" = Some (VString "Oslo").
Proof.
  destruct (toMap exInvalidArguments "uuid-1" (map_to_list exNamed) []
              exAnalyticsPlain) as [m|e] eqn:H.
  - exists m. split; [reflexivity | ].
    apply (toMap_named_parameter exInvalidArguments "uuid-1" (map_to_list exNamed) []
             exAnalyticsPlain m exNamed "city" (VString "Oslo") H).
    + reflexivity.
    + unfold visits. reflexivity.
    + apply (bool_decide_unpack _). vm_compute. exact I.
    + vm_compute. reflexivity.
    + cbn. apply not_elem_of_nil.
  - vm_compute in H. discriminate H.
Defined.

Lemma toMap_order_independent_witness :
  toMap exInvalidArguments "uuid-1" (map_to_list exNamed) (map_to_list exRaw)
    exAnalyticsOptions
  = toMap exInvalidArguments "uuid-1" (reverse (map_to_list exNamed))
      (reverse (map_to_list exRaw)) exAnalyticsOptions.
Proof.
  apply toMap_order_independent.
  - unfold visits. reflexivity.
  - unfold visits. apply reverse_Permutation.
  - unfold visits. reflexivity.
  - unfold visits. apply reverse_Permutation.
  - apply (bool_decide_unpack _). vm_compute. exact I.
Defined.

Lemma toMap_named_collision_witness :
  exists m1 m2,
    toMap exInvalidArguments "uuid-1" [("a", VNumber 1); ("$a", VNumber 2)] []
      exAnalyticsClash = Ok m1 /\
    toMap exInvalidArguments "uuid-1" [("$a", VNumber 2); ("a", VNumber 1)] []
      exAnalyticsClash = Ok m2 /\
    m1 !! "$a" = Some (VNumber 2) /\ m2 !! "$a" = Some (VNumber 1).
Proof.
  destruct (toMap_named_collision exInvalidArguments "uuid-1" [] exAnalyticsClash
              "a" (VNumber 1) (VNumber 2))
    as (_ & _ & m1 & m2 & H1 & H2 & H3 & H4).
  - reflexivity.
  - reflexivity.
  - reflexivity.
  - reflexivity.
  - left. reflexivity.
  - exists m1, m2. auto.
Defined.

(** * Construction, continued *)

Section ConstructionMore.

Context `{CS : ClientStates}.
Variable Parse : string -> result ConnSpec.

(** What a successful pass over the connection string's options leaves
    untouched. *)
Lemma parseExtraConnStrOptions_None_inv spec c c0 :
  parseExtraConnStrOptions spec c = (c0, None) ->
  connections c0 = connections c /\ clusterClient c0 = clusterClient c /\
  Tracer (sb c0) = Tracer (sb c) /\ ManagementTimeout (sb c0) = ManagementTimeout (sb c) /\
  cSpec c0 = cSpec c /\ auth c0 = auth c.
Proof.
  unfold parseExtraConnStrOptions, timeoutOption, andThen.
  destruct (fetchOption spec "query_timeout") as [v1|];
    [destruct (ParseInt v1) | ];
  (destruct (fetchOption spec "analytics_timeout") as [v2|];
    [destruct (ParseInt v2) | ]);
  (destruct (fetchOption spec "search_timeout") as [v3|];
    [destruct (ParseInt v3) | ]);
  (destruct (fetchOption spec "view_timeout") as [v4|];
    [destruct (ParseInt v4) | ]);
  intros H; try discriminate H; injection H as <-; repeat split.
Qed.

(** The error of [parseExtraConnStrOptions] is the one of the first option,
    in the order the function reads them, that is not a number. *)
Lemma parseExtraConnStrOptions_error spec c :
  (parseExtraConnStrOptions spec c).2 = firstBadOption spec.
Proof.
  unfold parseExtraConnStrOptions, timeoutOption, andThen, firstBadOption, badOption.
  cbn [zip zip_with timeoutKeys timeoutErrors omap list_omap fst snd].
  destruct (fetchOption spec "query_timeout") as [v1|];
    [destruct (ParseInt v1) | ];
  (destruct (fetchOption spec "analytics_timeout") as [v2|];
    [destruct (ParseInt v2) | ]);
  (destruct (fetchOption spec "search_timeout") as [v3|];
    [destruct (ParseInt v3) | ]);
  (destruct (fetchOption spec "view_timeout") as [v4|];
    [destruct (ParseInt v4) | ]);
  reflexivity.
Qed.

(** X7. When several timeout options of the connection string are not numbers,
    [Connect] reports the first of them in the order query, analytics,
    search, view, whatever their order in the connection string, and
    returns no cluster. *)
Theorem Connect_reports_first_bad_option connStr opts t w spec msg :
  Parse connStr = Ok spec -> Scheme spec <> "http" ->
  firstBadOption spec = Some msg ->
  (Connect Parse connStr opts t w).2 = Err msg /\
  forall c, (parseExtraConnStrOptions spec c).2 = Some msg.
Proof.
  intros HP Hs Hbad. split.
  - unfold Connect. rewrite HP.
    destruct (decide (Scheme spec = "http")) as [|_]; [contradiction | ].
    destruct (clusterFromOptions opts w) as [w1 c1].
    pose proof (parseExtraConnStrOptions_error spec (set_cSpec spec c1)) as He.
    rewrite Hbad in He.
    destruct (parseExtraConnStrOptions spec (set_cSpec spec c1)) as [c0 [e|]];
      cbn [snd] in He; [ | discriminate He].
    injection He as ->. reflexivity.
  - intros c. rewrite parseExtraConnStrOptions_error. exact Hbad.
Qed.

(** X8. A successful [Connect] has taken one reference on the tracer and made,
    configured and connected exactly one client, the cluster level one; the
    cluster it returns has an empty registry. *)
Theorem Connect_opens_one_connection connStr opts t w w' c :
  Connect Parse connStr opts t w = (w', Ok c) ->
  let tracer := default ThresholdLoggingTracer (o_Tracer opts) in
  trace w' = (trace w ++
              [EvTracerAddRef tracer; EvNewClient (nextId w) (Hash clusterLevelState);
               EvBuildConfig (nextId w); EvConnect (nextId w)])%list /\
  nextId w' = S (nextId w) /\
  connections c = ∅ /\
  clusterClient c = Some {| cid := nextId w; state := clusterLevelState;
                            session := t; bootstrapErr := None |} /\
  supportsGCCCP c = gcccp t /\
  Tracer (sb c) = Some tracer /\
  registryOK w' c.
Proof.
  intros H tracer. unfold Connect in H.
  destruct (Parse connStr) as [spec|e]; [ | discriminate].
  destruct (decide (Scheme spec = "http")) as [|Hs]; [discriminate | ].
  destruct (clusterFromOptions opts w) as [w1 c1] eqn:Hc.
  destruct (parseExtraConnStrOptions spec (set_cSpec spec c1)) as [c0 [e|]] eqn:Hp;
    [discriminate | ].
  destruct (parseExtraConnStrOptions_None_inv _ _ _ Hp) as (Hconn & Hcc & Htr & _).
  unfold clusterFromOptions in Hc. injection Hc as <- <-.
  unfold newClient, client_buildConfig, client_connect, emit in H.
  cbn [nextId trace cid session] in H.
  destruct (buildConfigErr t) eqn:Hb; [discriminate | ].
  destruct (connectErr t) eqn:Hn; [discriminate | ].
  injection H as <- <-.
  cbn [trace nextId connections clusterClient supportsGCCCP sb set_supportsGCCCP
       set_clusterClient set_cSpec Tracer] in *.
  rewrite <- !app_assoc.
  do 6 (split; [first [assumption | reflexivity] | ]).
  split.
  - intros k cli Hk. cbn [connections set_supportsGCCCP set_clusterClient] in Hk.
    rewrite Hconn, lookup_empty in Hk. discriminate.
  - intros k1 k2 x1 x2 Hk. cbn [connections set_supportsGCCCP set_clusterClient] in Hk.
    rewrite Hconn, lookup_empty in Hk. discriminate.
Qed.

(** X9. [Connect] never gives a tracer reference back and never closes a
    client: when it fails after the scheme check, the reference that
    [clusterFromOptions] took stays taken, and a client that failed to
    configure or to connect stays open. *)
Theorem Connect_never_releases connStr opts t w :
  exists seg,
    trace (Connect Parse connStr opts t w).1 = (trace w ++ seg)%list /\
    Forall (fun ev => isRelease ev = false) seg /\
    (forall spec, Parse connStr = Ok spec -> Scheme spec <> "http" ->
       EvTracerAddRef (default ThresholdLoggingTracer (o_Tracer opts)) ∈ seg).
Proof.
  unfold Connect.
  destruct (Parse connStr) as [spec|e].
  2:{ exists []. rewrite app_nil_r. repeat split; [constructor | discriminate]. }
  destruct (decide (Scheme spec = "http")) as [Hh|Hs].
  { exists []. rewrite app_nil_r. repeat split; [constructor | ].
    intros spec' [= <-] Hne. contradiction. }
  unfold clusterFromOptions.
  match goal with
  | |- context [parseExtraConnStrOptions spec ?c1] =>
      destruct (parseExtraConnStrOptions spec c1) as [c0 [e|]]
  end.
  { eexists. cbn [fst emit trace]. split; [reflexivity | ].
    split; [repeat constructor | ]. intros; apply list_elem_of_here. }
  unfold newClient, client_buildConfig, client_connect, emit.
  cbn [nextId trace cid session].
  destruct (buildConfigErr t); [ | destruct (connectErr t)];
    cbn [fst trace]; rewrite <- !app_assoc; eexists;
    (split; [reflexivity | ]);
    (split; [repeat constructor | ]); intros; apply list_elem_of_here.
Qed.

(** X10. The managers of a cluster that [Connect] returned, at any time before
    [Close]: the index managers work with the management timeout resolved
    from the options, which is positive and which the connection string
    cannot change, and every manager shares the cluster's tracer. *)
Theorem managers_of_connected_cluster connStr opts t w w' c calls :
  Connect Parse connStr opts t w = (w', Ok c) ->
  let c2 := (BucketCalls calls w' c).1.2 in
  let timeout := orDefault (tc_ManagementTimeout (o_TimeoutsConfig opts))
                   (75000 * Millisecond) in
  let tracer := Some (default ThresholdLoggingTracer (o_Tracer opts)) in
  qim_globalTimeout (QueryIndexes c2) = timeout /\
  aim_globalTimeout (AnalyticsIndexes c2) = timeout /\
  0 < timeout /\
  qim_tracer (QueryIndexes c2) = tracer /\
  aim_tracer (AnalyticsIndexes c2) = tracer /\
  sim_tracer (SearchIndexes c2) = tracer /\
  um_tracer (Users c2) = tracer /\
  bm_tracer (Buckets c2) = tracer.
Proof.
  intros H c2 timeout tracer.
  assert (Hsb : sb c2 = sb c) by apply BucketCalls_sb.
  unfold QueryIndexes, AnalyticsIndexes, SearchIndexes, Users, Buckets.
  cbn [qim_globalTimeout aim_globalTimeout qim_tracer aim_tracer sim_tracer
       um_tracer bm_tracer].
  rewrite Hsb.
  destruct (Connect_Ok_inv Parse _ _ _ _ _ _ H)
    as (spec & c0 & _ & _ & Hp & _ & _ & Hsbc & _).
  destruct (parseExtraConnStrOptions_None_inv _ _ _ Hp) as (_ & _ & Htr & Hm & _).
  rewrite Hsbc, Htr, Hm.
  repeat split.
  apply orDefault_positive. unfold Millisecond. lia.
Qed.

End ConstructionMore.

(** * Teardown, continued *)

Lemma closedIds_app (l1 l2 : list event) :
  closedIds (l1 ++ l2) = (closedIds l1 ++ closedIds l2)%list.
Proof. unfold closedIds. apply omap_app. Qed.

Section TeardownMore.

Context `{CS : ClientStates}.

Lemma closedIds_closeEvents prefix (cli : client) :
  closedIds (closeEvents prefix cli) = [cid cli].
Proof. unfold closeEvents. destruct (closeErr (session cli)); reflexivity. Qed.

Lemma closedIds_registry prefix (order : list (string * client)) :
  closedIds (flat_map (fun kv : string * client => closeEvents prefix kv.2) order)
  = cid <$> order.*2.
Proof.
  induction order as [|[k cli] rest IH]; [reflexivity | ].
  cbn [flat_map]. rewrite closedIds_app, closedIds_closeEvents, IH. reflexivity.
Qed.

Lemma closedIds_closeTrace order (cc : option client) tracer :
  closedIds (closeTrace order cc tracer)
  = ((cid <$> order.*2) ++ option_list (cid <$> cc))%list.
Proof.
  unfold closeTrace. rewrite !closedIds_app, closedIds_registry.
  destruct cc as [cli|]; [rewrite closedIds_closeEvents | ];
    destruct tracer; reflexivity.
Qed.

(** [Close], for any order of its loop. *)
Lemma Close_shape order w c :
  exists w' c',
    Close order w c = (w', c', last (closeErrors order (clusterClient c))) /\
    nextId w' = nextId w /\
    trace w' = (trace w ++ closeTrace order (clusterClient c) (Tracer (sb c)))%list /\
    clusterClient c' = clusterClient c /\
    connections c' =
      foldl (fun m (kv : string * client) => delete kv.1 m) (connections c) order /\
    sb c' = (if Tracer (sb c) is Some _ then set_Tracer None (sb c) else sb c).
Proof.
  unfold Close. rewrite foldl_closeEntry.
  cbn [clusterClient set_connections sb].
  unfold closeErrors, closeTrace.
  destruct (clusterClient c) as [cc|] eqn:Hcc.
  - unfold client_close, closeEvents, emit. cbn [nextId trace].
    destruct (closeErr (session cc)) as [e|]; cbn [option_list];
      destruct (Tracer (sb c)) as [t|] eqn:Ht;
      do 2 eexists;
      (split; [rewrite last_app; cbn [last];
               try destruct (last (omap _ order)); reflexivity | ]);
      cbn [nextId trace sb set_sb set_Tracer Tracer connections set_connections
           clusterClient];
      (split; [reflexivity | ]);
      (split; [rewrite <- ?app_assoc; cbn [app]; rewrite ?app_nil_r; reflexivity | ]);
      (split; [exact Hcc | ]); split; reflexivity.
  - destruct (Tracer (sb c)) as [t|] eqn:Ht;
      do 2 eexists;
      (split; [rewrite app_nil_r; destruct (last (omap _ order)); reflexivity | ]);
      cbn [emit nextId trace sb set_sb set_Tracer Tracer connections set_connections
           clusterClient];
      (split; [reflexivity | ]);
      (split; [rewrite <- ?app_assoc; cbn [app]; rewrite ?app_nil_r; reflexivity | ]);
      (split; [exact Hcc | ]); split; reflexivity.
Qed.

(** X12. [Close] closes the handles of the registry, each once and in the order
    of its loop, then the cluster level handle, and nothing else: a handle
    that is in neither place is not closed. *)
Theorem Close_closes_what_is_registered order w c :
  order ≡ₚ map_to_list (connections c) ->
  exists seg,
    trace (Close order w c).1.1 = (trace w ++ seg)%list /\
    closedIds seg = ((cid <$> order.*2) ++ option_list (cid <$> clusterClient c))%list /\
    forall id, id ∈ closedIds seg <->
      (exists k cli, connections c !! k = Some cli /\ cid cli = id) \/
      (exists cli, clusterClient c = Some cli /\ cid cli = id).
Proof.
  intros Hp.
  destruct (Close_shape order w c) as (w' & c' & -> & _ & Htr & _).
  cbn [fst]. eexists. split; [exact Htr | ].
  rewrite closedIds_closeTrace. split; [reflexivity | ].
  intros id. rewrite elem_of_app. split.
  - intros [Hin|Hin].
    + left. apply list_elem_of_fmap in Hin. destruct Hin as (cli & -> & Hin).
      apply list_elem_of_fmap in Hin. destruct Hin as ([k cli'] & -> & Hin).
      exists k, cli'. split; [ | reflexivity].
      apply elem_of_map_to_list. rewrite <- Hp. exact Hin.
    + right. destruct (clusterClient c) as [cli|]; cbn in Hin.
      * apply list_elem_of_singleton in Hin. eauto.
      * apply elem_of_nil in Hin. contradiction.
  - intros [(k & cli & Hk & <-)|(cli & Hc & <-)].
    + left. apply list_elem_of_fmap. exists cli. split; [reflexivity | ].
      apply list_elem_of_fmap. exists (k, cli). split; [reflexivity | ].
      rewrite Hp. apply elem_of_map_to_list. exact Hk.
    + right. rewrite Hc. cbn. apply list_elem_of_here.
Qed.

(** X13. [Close] does not clear the cluster level slot: after it, provider
    resolution still answers with the handle it has just closed. *)
Theorem Close_keeps_cluster_slot order w c cc :
  clusterClient c = Some cc -> client_supportsGCCCP cc = true ->
  clusterClient (Close order w c).1.2 = Some cc /\
  EvClose (cid cc) ∈ trace (Close order w c).1.1 /\
  forall order' k,
    clusterOrRandomClient order' (Close order w c).1.2 = Ok cc /\
    resolveProvider k order' (Close order w c).1.2 = client_getProvider k cc.
Proof.
  intros Hcc Hg.
  destruct (Close_shape order w c) as (w' & c' & -> & _ & Htr & Hslot & _).
  cbn [fst snd]. rewrite Hslot, Hcc. split; [reflexivity | ]. split.
  - rewrite Htr, Hcc. unfold closeTrace.
    apply elem_of_app. right. apply elem_of_app. right.
    apply elem_of_app. left. apply closeEvents_close.
  - intros order' k.
    assert (H : clusterOrRandomClient order' c' = Ok cc).
    { unfold clusterOrRandomClient. rewrite Hslot, Hcc, Hg. reflexivity. }
    split; [exact H | ]. unfold resolveProvider. rewrite H.
    destruct (client_getProvider k cc); reflexivity.
Qed.

(** X14. A second [Close] finds the registry empty and the tracer gone: it gives
    no tracer reference back, but it closes the cluster level handle once
    more and returns that close's error. *)
Theorem Close_twice order w c :
  order ≡ₚ map_to_list (connections c) ->
  exists w1 c1 e1 w2 c2,
    Close order w c = (w1, c1, e1) /\
    map_to_list (connections c1) = [] /\
    Close [] w1 c1 = (w2, c2, clusterClient c ≫= fun cc => closeErr (session cc)) /\
    decRefCalls (trace w2) = decRefCalls (trace w1) /\
    exists seg, trace w2 = (trace w1 ++ seg)%list /\
                closedIds seg = option_list (cid <$> clusterClient c).
Proof.
  intros Hp.
  destruct (Close_shape order w c) as (w1 & c1 & H1 & _ & _ & Hslot & Hconn & Hsb).
  destruct (Close_shape [] w1 c1) as (w2 & c2 & H2 & _ & Htr2 & _).
  rewrite (foldl_delete_all _ _ Hp) in Hconn.
  assert (Ht : Tracer (sb c1) = None).
  { rewrite Hsb. destruct (Tracer (sb c)) eqn:E; [reflexivity | exact E]. }
  exists w1, c1, (last (closeErrors order (clusterClient c))), w2, c2.
  split; [exact H1 | ].
  split; [rewrite Hconn; apply map_to_list_empty | ].
  split.
  { rewrite H2, Hslot. f_equal. unfold closeErrors. cbn [omap list_omap app].
    destruct (clusterClient c) as [cc|]; [ | reflexivity].
    cbn. destruct (closeErr (session cc)); reflexivity. }
  rewrite Htr2, Ht, Hslot. split.
  - rewrite decRefCalls_app. unfold closeTrace. cbn [flat_map app].
    rewrite app_nil_r.
    destruct (clusterClient c) as [cc|];
      [rewrite decRefCalls_closeEvents | ]; cbn; lia.
  - eexists. split; [reflexivity | ]. apply closedIds_closeTrace.
Qed.

(** X11. A manager made before [Close] keeps the tracer whose reference [Close]
    gives back; a manager made after [Close] has no tracer. The management
    timeout of the index managers is the same before and after. *)
Theorem managers_across_Close order w c t :
  Tracer (sb c) = Some t ->
  let c' := (Close order w c).1.2 in
  let w' := (Close order w c).1.1 in
  qim_tracer (QueryIndexes c) = Some t /\
  EvTracerDecRef t ∈ trace w' /\
  qim_tracer (QueryIndexes c') = None /\
  aim_tracer (AnalyticsIndexes c') = None /\
  sim_tracer (SearchIndexes c') = None /\
  um_tracer (Users c') = None /\
  bm_tracer (Buckets c') = None /\
  qim_globalTimeout (QueryIndexes c') = qim_globalTimeout (QueryIndexes c) /\
  aim_globalTimeout (AnalyticsIndexes c') = aim_globalTimeout (AnalyticsIndexes c).
Proof.
  intros Ht c' w'. subst c' w'.
  destruct (Close_shape order w c) as (w' & c' & -> & _ & Htr & _ & _ & Hsb).
  cbn [fst snd]. rewrite Ht in Hsb, Htr.
  unfold QueryIndexes, AnalyticsIndexes, SearchIndexes, Users, Buckets.
  cbn [qim_globalTimeout aim_globalTimeout qim_tracer aim_tracer sim_tracer
       um_tracer bm_tracer].
  rewrite Hsb. cbn [set_Tracer Tracer ManagementTimeout].
  split; [exact Ht | ]. split; [ | repeat split].
  rewrite Htr. unfold closeTrace.
  apply elem_of_app. right. apply elem_of_app. right.
  apply elem_of_app. right. apply list_elem_of_here.
Qed.

End TeardownMore.

(** * Bucket acquisition, continued *)

Section AcquisitionMore.

Context `{CS : ClientStates}.

Lemma retireClusterClient_old w c cc :
  clusterClient c = Some cc -> client_supportsGCCCP cc = false ->
  retireClusterClient w c =
    ({| nextId := nextId w;
        trace := trace w ++
                 closeEvents "Failed to close the cluster level client: " cc |},
     set_clusterClient None c).
Proof.
  intros Hc Hg. unfold retireClusterClient, client_close, closeEvents, emit.
  rewrite Hc, Hg. cbn [negb].
  destruct (closeErr (session cc)); cbn [nextId trace];
    rewrite <- ?app_assoc; reflexivity.
Qed.

Lemma retireClusterClient_settled w c :
  (forall cc, clusterClient c = Some cc -> client_supportsGCCCP cc = true) ->
  retireClusterClient w c = (w, c).
Proof.
  intros H. unfold retireClusterClient.
  destruct (clusterClient c) as [cc|]; [ | reflexivity].
  rewrite (H cc eq_refl). reflexivity.
Qed.

(** The events of making a client: it is made and configured, and it is
    connected when the configuration succeeded. *)
Lemma createClient_events s t w :
  createClient s t w =
    ({| nextId := S (nextId w);
        trace := trace w ++
                 EvNewClient (nextId w) (Hash s) :: EvBuildConfig (nextId w) ::
                 (if buildConfigErr t is Some _ then [] else [EvConnect (nextId w)]) |},
     {| cid := nextId w; state := s; session := t;
        bootstrapErr := bootstrapOutcome t |}).
Proof.
  unfold createClient, newClient, client_buildConfig, client_connect,
    setBootstrapError, bootstrapOutcome, emit.
  cbn [nextId trace cid state session bootstrapErr].
  destruct (buildConfigErr t) as [e|].
  - rewrite <- app_assoc. reflexivity.
  - destruct (connectErr t) as [e|]; rewrite <- !app_assoc; reflexivity.
Qed.

(** After its first critical section [Bucket] closes nothing and leaves the
    cluster level slot alone. *)
Lemma Bucket_after_retire name t w c :
  exists seg,
    trace (Bucket name t w c).1.1
      = (trace (retireClusterClient w c).1 ++ seg)%list /\
    closedIds seg = [] /\
    clusterClient (Bucket name t w c).1.2 = clusterClient (retireClusterClient w c).2.
Proof.
  unfold Bucket. destruct (retireClusterClient w c) as [w1 c1]. cbn [fst snd].
  destruct (getClient c1 (b_state (newBucket (sb c) name))) as [cli|].
  - exists []. cbn [fst snd]. rewrite app_nil_r. repeat split.
  - rewrite createClient_events. cbn [fst snd trace].
    eexists. split; [reflexivity | ].
    split; [ | reflexivity].
    destruct (buildConfigErr t); reflexivity.
Qed.

(** X15. The first [Bucket] on a cluster whose cluster level client does not
    support GCCCP closes that client and clears the slot; an error of that
    close is logged and does not reach the caller. From then on
    [WaitUntilReady] answers "cluster is not connected", and provider
    resolution is the fallback scan of the registry. *)
Theorem Bucket_retires_old_cluster_client name t w c cc :
  clusterClient c = Some cc -> client_supportsGCCCP cc = false ->
  let c' := (Bucket name t w c).1.2 in
  clusterClient c' = None /\
  (exists seg,
     trace (Bucket name t w c).1.1
       = (trace w ++ closeEvents "Failed to close the cluster level client: " cc
            ++ seg)%list /\
     closedIds seg = []) /\
  is_Some (cachedClient (Bucket name t w c).2) /\
  (forall now timeout opts,
     WaitUntilReady now timeout opts c' = Some errClusterNotConnected) /\
  (forall order, clusterOrRandomClient order c' = randomClient order c').
Proof.
  intros Hc Hg c'. subst c'.
  destruct (Bucket_after_retire name t w c) as (seg & Htr & Hcl & Hslot).
  rewrite (retireClusterClient_old w c cc Hc Hg) in Htr, Hslot.
  cbn [fst snd trace clusterClient set_clusterClient] in Htr, Hslot.
  split; [exact Hslot | ]. split.
  { exists seg. rewrite Htr, <- app_assoc. split; [reflexivity | exact Hcl]. }
  split.
  { destruct (Bucket_spec name t w c) as (? & ? & ? & cli & ? & -> & Hb & _).
    cbn [snd]. rewrite Hb. eauto. }
  split.
  - intros now timeout opts. unfold WaitUntilReady. rewrite Hslot. reflexivity.
  - intros order. unfold clusterOrRandomClient. rewrite Hslot.
    destruct (randomClient order (Bucket name t w c).1.2); reflexivity.
Qed.

(** X16. A cluster level client that supports GCCCP is left open by [Bucket] and
    stays the handle of every provider, whatever the registry holds. *)
Theorem Bucket_keeps_GCCCP_cluster_client name t w c cc :
  clusterClient c = Some cc -> client_supportsGCCCP cc = true ->
  let c' := (Bucket name t w c).1.2 in
  clusterClient c' = Some cc /\
  (exists seg,
     trace (Bucket name t w c).1.1 = (trace w ++ seg)%list /\ closedIds seg = []) /\
  (forall order k,
     clusterOrRandomClient order c' = Ok cc /\
     resolveProvider k order c' = client_getProvider k cc).
Proof.
  intros Hc Hg c'. subst c'.
  destruct (Bucket_after_retire name t w c) as (seg & Htr & Hcl & Hslot).
  rewrite retireClusterClient_settled in Htr, Hslot
    by (intros x Hx; rewrite Hc in Hx; injection Hx as <-; exact Hg).
  cbn [fst snd] in Htr, Hslot. rewrite Hc in Hslot.
  split; [exact Hslot | ]. split; [eauto | ].
  intros order k.
  assert (H : clusterOrRandomClient order (Bucket name t w c).1.2 = Ok cc).
  { unfold clusterOrRandomClient. rewrite Hslot, Hg. reflexivity. }
  split; [exact H | ]. unfold resolveProvider. rewrite H.
  destruct (client_getProvider k cc); reflexivity.
Qed.

Lemma BucketCalls_settled calls w c :
  (forall cc, clusterClient c = Some cc -> client_supportsGCCCP cc = true) ->
  exists seg,
    trace (BucketCalls calls w c).1.1 = (trace w ++ seg)%list /\
    closedIds seg = [] /\
    clusterClient (BucketCalls calls w c).1.2 = clusterClient c.
Proof.
  revert w c. induction calls as [|[name t] rest IH]; intros w c Hs.
  - exists []. cbn [BucketCalls fst snd]. rewrite app_nil_r. repeat split.
  - cbn [BucketCalls].
    destruct (Bucket_after_retire name t w c) as (seg & Htr & Hcl & Hslot).
    rewrite (retireClusterClient_settled w c Hs) in Htr, Hslot.
    destruct (Bucket name t w c) as [[w1 c1] b]. cbn [fst snd] in *.
    destruct (IH w1 c1) as (seg' & Htr' & Hcl' & Hslot').
    { intros cc Hcc. apply Hs. rewrite <- Hslot. exact Hcc. }
    destruct (BucketCalls rest w1 c1) as [[w2 c2] bs]. cbn [fst snd] in *.
    exists (seg ++ seg')%list. rewrite Htr', Htr, app_assoc.
    split; [reflexivity | ]. split; [ | congruence].
    rewrite closedIds_app, Hcl, Hcl'. reflexivity.
Qed.

(** X17. In any sequence of calls of [Bucket] the cluster level client is closed
    at most once: by the first call, when it does not support GCCCP. No call
    closes a handle of the registry. *)
Theorem BucketCalls_retire_once calls w c :
  exists seg,
    trace (BucketCalls calls w c).1.1 = (trace w ++ seg)%list /\
    closedIds seg =
      match calls, clusterClient c with
      | _ :: _, Some cc => if client_supportsGCCCP cc then [] else [cid cc]
      | _, _ => []
      end.
Proof.
  destruct calls as [|[name t] rest].
  { exists []. cbn [BucketCalls fst snd]. rewrite app_nil_r. split; reflexivity. }
  cbn [BucketCalls].
  destruct (Bucket_after_retire name t w c) as (seg & Htr & Hcl & Hslot).
  assert (Hsettled : forall cc, clusterClient (Bucket name t w c).1.2 = Some cc ->
                       client_supportsGCCCP cc = true).
  { intros x Hx. rewrite Hslot in Hx.
    destruct (clusterClient c) as [cc|] eqn:Hc.
    - destruct (client_supportsGCCCP cc) eqn:Hg.
      + rewrite retireClusterClient_settled in Hx
          by (intros y Hy; rewrite Hc in Hy; injection Hy as <-; exact Hg).
        cbn [snd] in Hx. rewrite Hc in Hx. injection Hx as <-. exact Hg.
      + rewrite (retireClusterClient_old w c cc Hc Hg) in Hx.
        cbn [snd clusterClient set_clusterClient] in Hx. discriminate Hx.
    - rewrite retireClusterClient_settled in Hx
        by (intros y Hy; rewrite Hc in Hy; discriminate Hy).
      cbn [snd] in Hx. rewrite Hc in Hx. discriminate Hx. }
  destruct (Bucket name t w c) as [[w1 c1] b]. cbn [fst snd] in *.
  destruct (BucketCalls_settled rest w1 c1 Hsettled) as (seg' & Htr' & Hcl' & _).
  destruct (BucketCalls rest w1 c1) as [[w2 c2] bs]. cbn [fst snd] in *.
  destruct (clusterClient c) as [cc|] eqn:Hc.
  - destruct (client_supportsGCCCP cc) eqn:Hg.
    + rewrite retireClusterClient_settled in Htr
        by (intros x Hx; rewrite Hc in Hx; injection Hx as <-; exact Hg).
      cbn [fst] in Htr. exists (seg ++ seg')%list.
      rewrite Htr', Htr, app_assoc. split; [reflexivity | ].
      rewrite closedIds_app, Hcl, Hcl'. reflexivity.
    + rewrite (retireClusterClient_old w c cc Hc Hg) in Htr. cbn [fst trace] in Htr.
      eexists. rewrite Htr', Htr, <- !app_assoc. split; [reflexivity | ].
      rewrite !closedIds_app, closedIds_closeEvents, Hcl, Hcl'. reflexivity.
  - rewrite retireClusterClient_settled in Htr
      by (intros x Hx; rewrite Hc in Hx; discriminate Hx).
    cbn [fst] in Htr. exists (seg ++ seg')%list.
    rewrite Htr', Htr, app_assoc. split; [reflexivity | ].
    rewrite closedIds_app, Hcl, Hcl'. reflexivity.
Qed.

Lemma Bucket_clears_old_slot name t w c :
  (forall cc, clusterClient c = Some cc -> client_supportsGCCCP cc = false) ->
  clusterClient (Bucket name t w c).1.2 = None.
Proof.
  intros Hold.
  destruct (Bucket_after_retire name t w c) as (_ & _ & _ & ->).
  destruct (clusterClient c) as [cc|] eqn:Hc.
  - rewrite (retireClusterClient_old w c cc Hc (Hold cc eq_refl)). reflexivity.
  - rewrite retireClusterClient_settled
      by (intros y Hy; rewrite Hc in Hy; discriminate Hy).
    exact Hc.
Qed.

(** The scan of a registry that holds one handle, a healthy one. *)
Lemma randomClient_single (c : Cluster) key cli order :
  connections c = {[key := cli]} ->
  getBootstrapError cli = None -> connected cli = (true, None) ->
  order ≡ₚ map_to_list (connections c) ->
  randomClient order c = Ok cli.
Proof.
  intros Hconn Hb Hup Hp. rewrite Hconn, map_to_list_singleton in Hp.
  apply Permutation_singleton_r in Hp. subst order.
  unfold randomClient. rewrite Hconn, map_size_singleton.
  destruct (decide (1%nat = 0%nat)) as [|_]; [discriminate | ].
  cbn [scanClients]. rewrite Hb, Hup. reflexivity.
Qed.

(** X18. Against a server without GCCCP, with no bucket open yet: the first
    bucket whose client bootstraps and is connected becomes the handle of
    every provider of the cluster. *)
Theorem first_bucket_serves_cluster_requests name t w c :
  (forall cc, clusterClient c = Some cc -> client_supportsGCCCP cc = false) ->
  connections c = ∅ -> healthy t ->
  exists cli,
    cachedClient (Bucket name t w c).2 = Some cli /\
    cid cli = nextId w /\ session cli = t /\
    forall order k,
      order ≡ₚ map_to_list (connections (Bucket name t w c).1.2) ->
      clusterOrRandomClient order (Bucket name t w c).1.2 = Ok cli /\
      resolveProvider k order (Bucket name t w c).1.2 = client_getProvider k cli.
Proof.
  intros Hold Hempty [Hboot Hup].
  pose proof (Bucket_clears_old_slot name t w c Hold) as Hslot.
  destruct (Bucket_spec name t w c)
    as (w' & c' & b & cli & seg & HB & Hb & _ & _ & _ & _ & _ & Hcase).
  rewrite HB in *. cbn [fst snd] in *.
  rewrite Hempty, lookup_empty in Hcase.
  destruct Hcase as (Hconn & Hcid & _ & _ & Hsess & Hbe & _).
  exists cli. do 3 (split; [assumption | ]).
  intros order k Hp.
  assert (H : clusterOrRandomClient order c' = Ok cli).
  { unfold clusterOrRandomClient. rewrite Hslot.
    rewrite (randomClient_single c' (Hash (bucketState (sb c) name)) cli order);
      [reflexivity | | | | exact Hp].
    - rewrite Hconn. apply insert_empty.
    - rewrite Hbe. exact Hboot.
    - unfold connected. rewrite Hsess. exact Hup. }
  split; [exact H | ]. unfold resolveProvider. rewrite H.
  destruct (client_getProvider k cli); reflexivity.
Qed.

(** X19. After [Close] the registry remembers nothing: the next [Bucket], for
    any name, makes, configures and connects a new client, with an identity
    that no earlier handle has. *)
Theorem Bucket_after_Close_recreates name t name' t' order w c :
  registryOK w c ->
  order ≡ₚ map_to_list (connections (Bucket name t w c).1.2) ->
  let first := Bucket name t w c in
  let closed := Close order first.1.1 first.1.2 in
  let again := Bucket name' t' closed.1.1 closed.1.2 in
  exists cli cli',
    cachedClient first.2 = Some cli /\
    cachedClient again.2 = Some cli' /\
    cid cli' = nextId first.1.1 /\ (cid cli < cid cli')%nat /\
    session cli' = t' /\ getBootstrapError cli' = bootstrapOutcome t' /\
    connections again.1.2 = {[hash again.2 := cli']} /\
    factoryCalls (hash again.2) (trace again.1.1)
      = S (factoryCalls (hash again.2) (trace closed.1.1)).
Proof.
  intros Hok Hp first closed again. subst again closed first.
  pose proof (Bucket_registryOK name t w c Hok) as Hok1.
  destruct (Bucket_spec name t w c)
    as (w1 & c1 & b1 & cli & seg1 & HB1 & Hb1 & _ & _ & _ & _ & Hk1 & _).
  rewrite HB1 in *. cbn [fst snd] in *.
  pose proof (Close_empties order w1 c1 Hp) as Hempty.
  destruct (Close_shape order w1 c1) as (w2 & c2 & HC & Hid2 & _).
  rewrite HC in *. cbn [fst snd] in *.
  destruct (Bucket_spec name' t' w2 c2)
    as (w3 & c3 & b3 & cli3 & seg3 & HB3 & Hb3 & Hh3 & _ & _ & Htr3 & _ & Hcase3).
  rewrite HB3. cbn [fst snd].
  rewrite Hempty, lookup_empty in Hcase3.
  destruct Hcase3 as (Hconn3 & Hcid3 & _ & _ & Hsess3 & Hbe3 & Hf3).
  exists cli, cli3.
  destruct Hok1 as [Hold _]. destruct (Hold _ _ Hk1) as [Hlt _].
  repeat split; try assumption.
  - congruence.
  - lia.
  - rewrite Hconn3, Hh3. apply insert_empty.
  - rewrite Htr3, factoryCalls_app, Hf3, Hh3.
    rewrite decide_True by reflexivity. lia.
Qed.

(** X22. When exactly one handle of the registry is usable, the fallback scan
    selects it in whatever order the registry is visited. *)
Theorem randomClient_unique_usable c order key cli :
  order ≡ₚ map_to_list (connections c) ->
  connections c !! key = Some cli -> usable cli = true ->
  (forall key' cli', connections c !! key' = Some cli' -> usable cli' = true ->
     cli' = cli) ->
  randomClient order c = Ok cli.
Proof.
  intros Hp Hk Hu Huniq.
  rewrite (randomClient_fallbackScan c order Hp). unfold fallbackScan.
  assert (Hin : (key, cli) ∈ order).
  { rewrite Hp. apply elem_of_map_to_list. exact Hk. }
  destruct (List.find usable order.*2) as [x|] eqn:Hf.
  - apply find_some in Hf. destruct Hf as [Hx Hux].
    apply list_elem_of_In, list_elem_of_fmap in Hx.
    destruct Hx as ([k' x'] & -> & Hx). cbn [snd] in *.
    rewrite Hp in Hx. apply elem_of_map_to_list in Hx.
    rewrite (Huniq k' x' Hx Hux). reflexivity.
  - exfalso. eapply find_none in Hf.
    + rewrite Hu in Hf. discriminate Hf.
    + apply list_elem_of_In, list_elem_of_fmap. exists (key, cli). auto.
Qed.

(** X20. The registry after a sequence of calls of [Bucket] holds the
    fingerprints it held before and the fingerprints that were asked for,
    and no others. *)
Theorem BucketCalls_registry_domain calls w c :
  dom (connections (BucketCalls calls w c).1.2)
  = dom (connections c) ∪
    list_to_set ((fun nt : string * Transport => Hash (bucketState (sb c) nt.1))
                   <$> calls).
Proof.
  revert w c. induction calls as [|[name t] rest IH]; intros w c.
  - cbn [BucketCalls fst snd]. rewrite fmap_nil, list_to_set_nil.
    symmetry. apply (right_id_L ∅ (∪)).
  - cbn [BucketCalls].
    destruct (Bucket_spec name t w c)
      as (w1 & c1 & b1 & cli & seg1 & HB1 & _ & _ & _ & Hsb & _ & Hk1 & Hcase).
    rewrite HB1. specialize (IH w1 c1).
    destruct (BucketCalls rest w1 c1) as [[w2 c2] bs]. cbn [fst snd] in *.
    rewrite IH, Hsb, fmap_cons, list_to_set_cons. cbn [fst].
    assert (Hd : dom (connections c1)
                 = {[Hash (bucketState (sb c) name)]} ∪ dom (connections c)).
    { destruct (connections c !! Hash (bucketState (sb c) name)) eqn:Hk.
      - destruct Hcase as (_ & -> & _). symmetry.
        apply subseteq_union_1_L, singleton_subseteq_l, elem_of_dom. eauto.
      - destruct Hcase as (-> & _). apply dom_insert_L. }
    rewrite Hd.
    rewrite (comm_L (∪) {[Hash (bucketState (sb c) name)]} (dom (connections c))).
    symmetry. apply (assoc_L (∪)).
Qed.

(** X21. Buckets acquired one after the other under different fingerprints are
    never bound to the same handle. *)
Theorem BucketCalls_distinct_fingerprints calls w c bi bj ci cj :
  registryOK w c ->
  bi ∈ (BucketCalls calls w c).2 -> bj ∈ (BucketCalls calls w c).2 ->
  hash bi <> hash bj ->
  cachedClient bi = Some ci -> cachedClient bj = Some cj ->
  cid ci <> cid cj.
Proof.
  intros Hok Hi Hj Hne Hci Hcj Heq.
  destruct (BucketCalls_handles calls w c bi Hi) as [_ Hbi].
  destruct (BucketCalls_handles calls w c bj Hj) as [_ Hbj].
  destruct (BucketCalls_registryOK calls w c Hok) as [_ Hinj].
  rewrite Hci in Hbi. rewrite Hcj in Hbj.
  exact (Hne (Hinj _ _ _ _ Hbi Hbj Heq)).
Qed.

(** X23. Whether the fallback scan finds a handle does not depend on the order
    in which the registry is visited; the order only decides which usable
    handle, or which recorded error, comes back. A handle that comes back is
    a usable handle of the registry, an error that comes back is "not
    connected" or an error recorded at a handle of the registry. *)
Theorem randomClient_outcome_and_order c order1 order2 :
  order1 ≡ₚ map_to_list (connections c) ->
  order2 ≡ₚ map_to_list (connections c) ->
  ((exists cli, randomClient order1 c = Ok cli) <->
   (exists cli, randomClient order2 c = Ok cli)) /\
  (forall cli, randomClient order1 c = Ok cli ->
     usable cli = true /\ exists key, connections c !! key = Some cli) /\
  (forall e, randomClient order1 c = Err e ->
     e = errNotConnected \/
     exists key cli, connections c !! key = Some cli /\ recordedError cli = Some e).
Proof.
  intros Hp1 Hp2.
  assert (Hok : forall order, order ≡ₚ map_to_list (connections c) ->
            ((exists cli, randomClient order c = Ok cli) <->
             exists key cli, connections c !! key = Some cli /\ usable cli = true)).
  { intros order Hp. rewrite (randomClient_fallbackScan c order Hp).
    unfold fallbackScan. split.
    - intros [cli H]. destruct (List.find usable order.*2) as [x|] eqn:Hf.
      + apply find_some in Hf. destruct Hf as [Hx Hu].
        apply list_elem_of_In, list_elem_of_fmap in Hx.
        destruct Hx as ([k x'] & -> & Hx). rewrite Hp in Hx.
        apply elem_of_map_to_list in Hx. eauto.
      + destruct (omap recordedError order.*2); discriminate H.
    - intros (key & cli & Hk & Hu).
      destruct (List.find usable order.*2) as [x|] eqn:Hf; [eauto | ].
      exfalso. eapply find_none in Hf.
      + rewrite Hu in Hf. discriminate Hf.
      + apply list_elem_of_In, list_elem_of_fmap. exists (key, cli).
        split; [reflexivity | ]. rewrite Hp. apply elem_of_map_to_list. exact Hk. }
  split; [rewrite (Hok order1 Hp1), (Hok order2 Hp2); reflexivity | ].
  rewrite (randomClient_fallbackScan c order1 Hp1). unfold fallbackScan. split.
  - intros cli H. destruct (List.find usable order1.*2) as [x|] eqn:Hf.
    + injection H as <-. apply find_some in Hf. destruct Hf as [Hx Hu].
      split; [exact Hu | ].
      apply list_elem_of_In, list_elem_of_fmap in Hx.
      destruct Hx as ([k x'] & -> & Hx). rewrite Hp1 in Hx.
      apply elem_of_map_to_list in Hx. eauto.
    + destruct (omap recordedError order1.*2); discriminate H.
  - intros e H. destruct (List.find usable order1.*2) as [x|]; [discriminate H | ].
    destruct (omap recordedError order1.*2) as [|e' rest] eqn:Ho.
    + injection H as <-. left. reflexivity.
    + injection H as <-. right.
      assert (Hin : e' ∈ omap recordedError order1.*2)
        by (rewrite Ho; apply list_elem_of_here).
      apply list_elem_of_omap in Hin. destruct Hin as (x & Hx & He).
      apply list_elem_of_fmap in Hx. destruct Hx as ([k x'] & -> & Hx).
      rewrite Hp1 in Hx. apply elem_of_map_to_list in Hx. eauto.
Qed.

End AcquisitionMore.

(** * Concurrent callers, continued *)

Section ConcurrencyFacts.

Context `{CS : ClientStates}.

Lemma pendingFor_insert key (ks : list caller) i k k' :
  ks !! i = Some k ->
  (pendingFor key (<[i := k']> ks) + (if mayCreate key k then 1 else 0)
   = pendingFor key ks + (if mayCreate key k' then 1 else 0))%nat.
Proof.
  intros Hi. unfold pendingFor.
  rewrite <- (take_drop_middle ks i k Hi) at 2.
  rewrite insert_take_drop by (eapply lookup_lt_Some; exact Hi).
  rewrite !List.filter_app, !length_app. cbn [List.filter].
  destruct (mayCreate key k), (mayCreate key k'); cbn [length]; lia.
Qed.

(** One step of one caller: a client is made for a fingerprint only by a
    caller of that fingerprint that had not made one before. *)
Lemma stepCaller_factory key (k : caller) w c :
  (factoryCalls key (trace (stepCaller k w c).1.2)
   + (if mayCreate key (stepCaller k w c).1.1 then 1 else 0)
   <= factoryCalls key (trace w) + (if mayCreate key k then 1 else 0))%nat.
Proof.
  unfold stepCaller, mayCreate.
  destruct (callerAt k) as [ | | |cli|b] eqn:Hat.
  - destruct (retireClusterClient_facts w c) as (_ & _ & _ & seg & Htr & Hq).
    destruct (retireClusterClient w c) as [w1 c1]. cbn [fst snd] in *.
    unfold moveTo. cbn [callerAt callerBucket].
    rewrite Htr, factoryCalls_app, (factoryCalls_quiet _ _ Hq). lia.
  - destruct (getClient c (b_state (callerBucket k))); cbn [fst snd];
      unfold moveTo; cbn [callerAt callerBucket];
      destruct (bool_decide (hash (callerBucket k) = key)); cbn; lia.
  - rewrite createClient_events. cbn [fst snd trace].
    unfold moveTo. cbn [callerAt callerBucket].
    rewrite andb_false_r, andb_true_r, factoryCalls_app.
    unfold hash.
    assert (H : factoryCalls key
                  (EvNewClient (nextId w) (Hash (b_state (callerBucket k)))
                   :: EvBuildConfig (nextId w)
                   :: (if buildConfigErr (callerTransport k) is Some _
                       then [] else [EvConnect (nextId w)]))
                = if bool_decide (Hash (b_state (callerBucket k)) = key)
                  then 1%nat else 0%nat).
    { unfold factoryCalls. cbn [List.filter isNewClientFor].
      destruct (bool_decide (Hash (b_state (callerBucket k)) = key));
        destruct (buildConfigErr (callerTransport k)); reflexivity. }
    rewrite H. destruct (bool_decide (Hash (b_state (callerBucket k)) = key)); lia.
  - cbn [fst snd]. unfold moveTo. cbn [callerAt callerBucket].
    rewrite !andb_false_r. lia.
  - cbn [fst snd]. rewrite Hat, andb_false_r. lia.
Qed.

(** One step of one caller keeps the configuration, keeps every fingerprint
    of the registry, and never takes an identity back. *)
Lemma stepCaller_monotone (k : caller) w c :
  sb (stepCaller k w c).2 = sb c /\
  (forall key, is_Some (connections c !! key) ->
     is_Some (connections (stepCaller k w c).2 !! key)) /\
  (nextId w <= nextId (stepCaller k w c).1.2)%nat.
Proof.
  unfold stepCaller.
  destruct (callerAt k) as [ | | |cli|b].
  - destruct (retireClusterClient_facts w c) as (Hconn & Hsb & Hid & _).
    destruct (retireClusterClient w c) as [w1 c1]. cbn [fst snd] in *.
    rewrite Hconn, Hid. auto.
  - destruct (getClient c (b_state (callerBucket k))); cbn [fst snd]; auto.
  - rewrite createClient_events. cbn [fst snd nextId]. repeat split; auto.
  - cbn [fst snd]. unfold registerClient. cbn [sb set_connections connections].
    repeat split; auto.
    intros key Hk. destruct (decide (hash (callerBucket k) = key)) as [<-|Hne].
    + rewrite lookup_insert_eq. eauto.
    + rewrite lookup_insert_ne by exact Hne. exact Hk.
  - cbn [fst snd]. auto.
Qed.

(** X24. Under any schedule, the clients made for a fingerprint are at most as
    many as the callers of that fingerprint that had not made theirs when the
    schedule started: every caller makes at most one. *)
Theorem runSchedule_factory_bound schedule (ks : list caller) w c key :
  (factoryCalls key (trace (runSchedule schedule ks w c).1.2)
   + pendingFor key (runSchedule schedule ks w c).1.1
   <= factoryCalls key (trace w) + pendingFor key ks)%nat /\
  (factoryCalls key (trace (runSchedule schedule ks w c).1.2)
   <= factoryCalls key (trace w) + length ks)%nat.
Proof.
  assert (H : (factoryCalls key (trace (runSchedule schedule ks w c).1.2)
   + pendingFor key (runSchedule schedule ks w c).1.1
   <= factoryCalls key (trace w) + pendingFor key ks)%nat).
  { revert ks w c. induction schedule as [|i rest IH]; intros ks w c.
    - cbn [runSchedule fst snd]. lia.
    - cbn [runSchedule]. destruct (ks !! i) as [k|] eqn:Hi; [ | apply IH].
      pose proof (stepCaller_factory key k w c) as Hstep.
      destruct (stepCaller k w c) as [[k' w1] c1]. cbn [fst snd] in Hstep.
      pose proof (pendingFor_insert key ks i k k' Hi) as Hins.
      specialize (IH (<[i := k']> ks) w1 c1). lia. }
  split; [exact H | ].
  assert (Hlen : (pendingFor key ks <= length ks)%nat).
  { unfold pendingFor. apply List.filter_length_le. }
  lia.
Qed.

(** X25. Under any schedule the configuration stays as it is, a fingerprint that
    is in the registry stays in it, and identities are never reused. *)
Theorem runSchedule_registry_monotone schedule (ks : list caller) w c :
  sb (runSchedule schedule ks w c).2 = sb c /\
  (forall key, is_Some (connections c !! key) ->
     is_Some (connections (runSchedule schedule ks w c).2 !! key)) /\
  (nextId w <= nextId (runSchedule schedule ks w c).1.2)%nat.
Proof.
  revert ks w c. induction schedule as [|i rest IH]; intros ks w c.
  - cbn [runSchedule fst snd]. auto.
  - cbn [runSchedule]. destruct (ks !! i) as [k|]; [ | apply IH].
    destruct (stepCaller_monotone k w c) as (Hsb & Hkeys & Hid).
    destruct (stepCaller k w c) as [[k' w1] c1]. cbn [fst snd] in *.
    destruct (IH (<[i := k']> ks) w1 c1) as (Hsb' & Hkeys' & Hid').
    repeat split.
    + congruence.
    + intros key Hk. apply Hkeys', Hkeys, Hk.
    + lia.
Qed.

Lemma retireClusterClient_idempotent w c :
  retireClusterClient (retireClusterClient w c).1 (retireClusterClient w c).2
  = retireClusterClient w c.
Proof.
  destruct (clusterClient c) as [cc|] eqn:Hc.
  - destruct (client_supportsGCCCP cc) eqn:Hg.
    + rewrite (retireClusterClient_settled w c)
        by (intros y Hy; rewrite Hc in Hy; injection Hy as <-; exact Hg).
      cbn [fst snd]. apply retireClusterClient_settled.
      intros y Hy. rewrite Hc in Hy. injection Hy as <-. exact Hg.
    + rewrite (retireClusterClient_old w c cc Hc Hg). cbn [fst snd].
      apply retireClusterClient_settled. intros y Hy. discriminate Hy.
  - rewrite (retireClusterClient_settled w c)
      by (intros y Hy; rewrite Hc in Hy; discriminate Hy).
    cbn [fst snd]. apply retireClusterClient_settled.
    intros y Hy. rewrite Hc in Hy. discriminate Hy.
Qed.

Lemma retireClusterClient_slot w c x :
  clusterClient (retireClusterClient w c).2 = Some x -> clusterClient c = Some x.
Proof.
  destruct (clusterClient c) as [cc|] eqn:Hc.
  - destruct (client_supportsGCCCP cc) eqn:Hg.
    + rewrite (retireClusterClient_settled w c)
        by (intros y Hy; rewrite Hc in Hy; injection Hy as <-; exact Hg).
      cbn [snd]. rewrite Hc. auto.
    + rewrite (retireClusterClient_old w c cc Hc Hg). cbn. discriminate.
  - rewrite (retireClusterClient_settled w c)
      by (intros y Hy; rewrite Hc in Hy; discriminate Hy).
    cbn [snd]. rewrite Hc. auto.
Qed.

(** X26. Two callers ask for the same new fingerprint and take their steps in
    turn. Each makes a client; the bucket of the first is bound to a handle
    that the second caller's registration pushes out of the registry, and
    which a later [Close] therefore does not close. *)
Theorem racing_callers_lose_a_handle name t1 t2 w c :
  connections c !! Hash (bucketState (sb c) name) = None ->
  registryOK w c ->
  (forall cc, clusterClient c = Some cc -> (cid cc < nextId w)%nat) ->
  let key := Hash (bucketState (sb c) name) in
  let r := runSchedule [0; 1; 0; 1; 0; 1; 0; 1]%nat
             [enter name t1 c; enter name t2 c] w c in
  exists k1 k2 cli1 cli2,
    r.1.1 = [k1; k2] /\
    returnedClient k1 = Some cli1 /\ returnedClient k2 = Some cli2 /\
    cid cli1 = nextId w /\ cid cli2 = S (nextId w) /\
    session cli1 = t1 /\ session cli2 = t2 /\
    connections r.2 !! key = Some cli2 /\
    factoryCalls key (trace r.1.2) = (factoryCalls key (trace w) + 2)%nat /\
    forall order, order ≡ₚ map_to_list (connections r.2) ->
      exists seg,
        trace (Close order r.1.2 r.2).1.1 = (trace r.1.2 ++ seg)%list /\
        cid cli1 ∉ closedIds seg.
Proof.
  intros Hmiss [Hold _] Hcc key r. subst r key.
  unfold enter.
  cbn [runSchedule lookup list_lookup insert list_insert stepCaller moveTo
       callerAt callerBucket callerTransport].
  pose proof (retireClusterClient_idempotent w c) as Hidem.
  pose proof (retireClusterClient_slot w c) as Hslot.
  destruct (retireClusterClient_facts w c) as (Hconn & _ & Hid & seg0 & Htr0 & Hq0).
  destruct (retireClusterClient w c) as [w1 c1]. cbn [fst snd] in *.
  cbn [runSchedule lookup list_lookup insert list_insert stepCaller moveTo
       callerAt callerBucket callerTransport].
  rewrite Hidem.
  cbn [runSchedule lookup list_lookup insert list_insert stepCaller moveTo
       callerAt callerBucket callerTransport].
  unfold getClient, newBucket. cbn [b_state]. rewrite Hconn.
  rewrite Hmiss.
  cbn [runSchedule lookup list_lookup insert list_insert stepCaller moveTo
       callerAt callerBucket callerTransport b_state].
  unfold getClient. cbn [b_state]. rewrite Hconn, Hmiss.
  cbn [runSchedule lookup list_lookup insert list_insert stepCaller moveTo
       callerAt callerBucket callerTransport b_state].
  rewrite !createClient_events.
  cbn [runSchedule lookup list_lookup insert list_insert stepCaller moveTo
       callerAt callerBucket callerTransport b_state nextId trace fst snd].
  unfold registerClient, hash, cacheClient.
  cbn [b_state bucketName cachedClient set_connections connections sb].
  rewrite Hconn, Hid, Htr0.
  do 4 eexists. split; [reflexivity | ].
  unfold returnedClient. cbn [callerAt cachedClient cid session].
  do 6 (split; [reflexivity | ]).
  split; [apply lookup_insert_eq | ].
  split.
  { rewrite <- !app_assoc, !factoryCalls_app, (factoryCalls_quiet _ _ Hq0).
    unfold factoryCalls. cbn [app List.filter isNewClientFor].
    rewrite bool_decide_eq_true_2 by reflexivity.
    destruct (buildConfigErr t1), (buildConfigErr t2);
      cbn [app List.filter isNewClientFor length];
      rewrite ?bool_decide_eq_true_2 by reflexivity; cbn [length]; lia. }
  intros order Hp.
  match goal with
  | |- context [Close order ?w2 ?c2] =>
      destruct (Close_shape order w2 c2) as (w3 & c3 & -> & _ & Htr3 & _)
  end.
  cbn [fst]. eexists. split; [exact Htr3 | ].
  rewrite closedIds_closeTrace. cbn [clusterClient].
  intros Hin. apply elem_of_app in Hin. destruct Hin as [Hin|Hin].
  - apply list_elem_of_fmap in Hin. destruct Hin as (x & Hx & Hin).
    apply list_elem_of_fmap in Hin. destruct Hin as ([k' x'] & -> & Hin).
    rewrite Hp in Hin. apply elem_of_map_to_list in Hin.
    cbn [snd fst connections] in *.
    rewrite insert_insert_eq in Hin.
    destruct (decide (Hash (bucketState (sb c) name) = k')) as [<-|Hne].
    + rewrite lookup_insert_eq in Hin. injection Hin as <-.
      cbn [cid] in Hx. lia.
    + rewrite lookup_insert_ne in Hin by exact Hne.
      destruct (Hold _ _ Hin) as [Hlt _]. cbn [cid] in Hx. lia.
  - cbn [clusterClient set_connections] in Hin.
    destruct (clusterClient c1) as [x|] eqn:Hc1; cbn in Hin.
    + apply list_elem_of_singleton in Hin. specialize (Hcc x (Hslot x eq_refl)). lia.
    + apply elem_of_nil in Hin. contradiction.
Qed.

End ConcurrencyFacts.

(** * Further instances *)

Lemma Connect_reports_first_bad_option_witness :
  firstBadOption exSpecTwoBad = Some errQueryTimeout /\
  (Connect (CS := specStates) (exParse exSpecTwoBad)
     "couchbase://localhost?view_timeout=x&query_timeout=abc"
     exOptions goodTransport exWorld).2 = Err errQueryTimeout.
Proof.
  assert (H : firstBadOption exSpecTwoBad = Some errQueryTimeout)
    by (vm_compute; reflexivity).
  split; [exact H | ].
  apply (Connect_reports_first_bad_option (CS := specStates) (exParse exSpecTwoBad)
           "couchbase://localhost?view_timeout=x&query_timeout=abc"
           exOptions goodTransport exWorld exSpecTwoBad errQueryTimeout eq_refl
           ltac:(vm_compute; discriminate) H).
Defined.

Lemma Connect_opens_one_connection_witness :
  exists w' c,
    exCluster goodTransport = (w', Ok c) /\
    nextId w' = 1%nat /\ connections c = ∅ /\ supportsGCCCP c = true.
Proof.
  destruct (exCluster goodTransport) as [w' [c|e]] eqn:H.
  - exists w', c. split; [reflexivity | ].
    destruct (Connect_opens_one_connection (CS := specStates) _ _ _ _ _ _ _ H)
      as (_ & Hid & Hconn & _ & Hg & _).
    auto.
  - vm_compute in H. discriminate H.
Defined.

Lemma managers_of_connected_cluster_witness :
  exists w' c,
    exCluster goodTransport = (w', Ok c) /\
    qim_globalTimeout
      (QueryIndexes (BucketCalls (CS := specStates) [("a", goodTransport)] w' c).1.2)
    = 75 * Second.
Proof.
  destruct (exCluster goodTransport) as [w' [c|e]] eqn:H.
  - exists w', c. split; [reflexivity | ].
    destruct (managers_of_connected_cluster (CS := specStates) _ _ _ _ _ _ _
                [("a", goodTransport)] H) as (Hq & _).
    rewrite Hq. reflexivity.
  - vm_compute in H. discriminate H.
Defined.

Lemma Close_closes_what_is_registered_witness :
  exists seg,
    trace (Close (CS := specStates) (map_to_list (connections exRegistry.2))
             exRegistry.1 exRegistry.2).1.1 = (trace exRegistry.1 ++ seg)%list /\
    closedIds seg = [1; 2; 0]%nat.
Proof.
  destruct (Close_closes_what_is_registered (CS := specStates)
              (map_to_list (connections exRegistry.2)) exRegistry.1 exRegistry.2
              (reflexivity _)) as (seg & Htr & Hids & _).
  exists seg. split; [exact Htr | ]. rewrite Hids. vm_compute. reflexivity.
Defined.

Lemma exRegistry_slot : clusterClient exRegistry.2 = Some exGoodClient.
Proof. vm_compute. reflexivity. Qed.

Lemma Close_keeps_cluster_slot_witness :
  clusterClient exRegistry.2 = Some exGoodClient /\
  client_supportsGCCCP exGoodClient = true /\
  clusterOrRandomClient (CS := specStates) []
    (Close (CS := specStates) (map_to_list (connections exRegistry.2))
       exRegistry.1 exRegistry.2).1.2 = Ok exGoodClient.
Proof.
  split; [exact exRegistry_slot | ]. split; [reflexivity | ].
  destruct (Close_keeps_cluster_slot (CS := specStates)
              (map_to_list (connections exRegistry.2)) exRegistry.1 exRegistry.2
              exGoodClient exRegistry_slot eq_refl) as (_ & _ & H).
  apply (H [] Query).
Defined.

Lemma Close_twice_witness :
  exists w1 c1 e1 w2 c2,
    Close (CS := specStates) (map_to_list (connections exRegistry.2))
      exRegistry.1 exRegistry.2 = (w1, c1, e1) /\
    Close (CS := specStates) [] w1 c1 = (w2, c2, None) /\
    decRefCalls (trace w2) = decRefCalls (trace w1).
Proof.
  destruct (Close_twice (CS := specStates)
              (map_to_list (connections exRegistry.2)) exRegistry.1 exRegistry.2
              (reflexivity _)) as (w1 & c1 & e1 & w2 & c2 & H1 & _ & H2 & Hd & _).
  exists w1, c1, e1, w2, c2. split; [exact H1 | ]. split; [ | exact Hd].
  rewrite H2. rewrite exRegistry_slot. reflexivity.
Defined.

Lemma managers_across_Close_witness :
  Tracer (sb exRegistry.2) = Some ThresholdLoggingTracer /\
  qim_tracer (QueryIndexes exRegistry.2) = Some ThresholdLoggingTracer /\
  qim_tracer
    (QueryIndexes (Close (CS := specStates) (map_to_list (connections exRegistry.2))
                     exRegistry.1 exRegistry.2).1.2) = None.
Proof.
  assert (Ht : Tracer (sb exRegistry.2) = Some ThresholdLoggingTracer)
    by (vm_compute; reflexivity).
  split; [exact Ht | ].
  destruct (managers_across_Close (CS := specStates)
              (map_to_list (connections exRegistry.2)) exRegistry.1 exRegistry.2
              ThresholdLoggingTracer Ht) as (H1 & _ & H2 & _).
  auto.
Defined.

Lemma exOldServer_slot : clusterClient exOldServer.2 = Some exOldClient.
Proof. vm_compute. reflexivity. Qed.

Lemma Bucket_retires_old_cluster_client_witness :
  clusterClient exOldServer.2 = Some exOldClient /\
  client_supportsGCCCP exOldClient = false /\
  clusterClient (Bucket (CS := specStates) "sales" goodTransport
                   exOldServer.1 exOldServer.2).1.2 = None /\
  WaitUntilReady (CS := specStates) 0 Second None
    (Bucket (CS := specStates) "sales" goodTransport exOldServer.1 exOldServer.2).1.2
  = Some errClusterNotConnected.
Proof.
  split; [exact exOldServer_slot | ]. split; [reflexivity | ].
  destruct (Bucket_retires_old_cluster_client (CS := specStates) "sales" goodTransport
              exOldServer.1 exOldServer.2 exOldClient exOldServer_slot eq_refl)
    as (H1 & _ & _ & H2 & _).
  split; [exact H1 | apply H2].
Defined.

Lemma exConnected_slot : clusterClient exConnected.2 = Some exGoodClient.
Proof. vm_compute. reflexivity. Qed.

Lemma Bucket_keeps_GCCCP_cluster_client_witness :
  clusterClient exConnected.2 = Some exGoodClient /\
  client_supportsGCCCP exGoodClient = true /\
  clusterClient (Bucket (CS := specStates) "sales" exFailingTransport
                   exConnected.1 exConnected.2).1.2 = Some exGoodClient.
Proof.
  split; [exact exConnected_slot | ]. split; [reflexivity | ].
  destruct (Bucket_keeps_GCCCP_cluster_client (CS := specStates) "sales"
              exFailingTransport exConnected.1 exConnected.2 exGoodClient
              exConnected_slot eq_refl) as (H & _).
  exact H.
Defined.

Lemma first_bucket_serves_cluster_requests_witness :
  connections exOldServer.2 = ∅ /\ healthy goodTransport /\
  exists cli,
    cachedClient (Bucket (CS := specStates) "sales" goodTransport
                    exOldServer.1 exOldServer.2).2 = Some cli /\
    cid cli = 1%nat.
Proof.
  assert (He : connections exOldServer.2 = ∅) by (vm_compute; reflexivity).
  assert (Hh : healthy goodTransport) by (split; reflexivity).
  split; [exact He | ]. split; [exact Hh | ].
  destruct (first_bucket_serves_cluster_requests (CS := specStates) "sales"
              goodTransport exOldServer.1 exOldServer.2) as (cli & Hb & Hid & _).
  - intros cc Hcc. rewrite exOldServer_slot in Hcc. injection Hcc as <-. reflexivity.
  - exact He.
  - exact Hh.
  - exists cli. split; [exact Hb | ]. rewrite Hid. vm_compute. reflexivity.
Defined.

Lemma Bucket_after_Close_recreates_witness :
  exists cli cli',
    cachedClient (Bucket (CS := specStates) "sales" exFailingTransport
                    exConnected.1 exConnected.2).2 = Some cli /\
    cachedClient
      (Bucket (CS := specStates) "sales" goodTransport
         (Close (CS := specStates)
            (map_to_list (connections (Bucket (CS := specStates) "sales"
                                         exFailingTransport
                                         exConnected.1 exConnected.2).1.2))
            (Bucket (CS := specStates) "sales" exFailingTransport
               exConnected.1 exConnected.2).1.1
            (Bucket (CS := specStates) "sales" exFailingTransport
               exConnected.1 exConnected.2).1.2).1.1
         (Close (CS := specStates)
            (map_to_list (connections (Bucket (CS := specStates) "sales"
                                         exFailingTransport
                                         exConnected.1 exConnected.2).1.2))
            (Bucket (CS := specStates) "sales" exFailingTransport
               exConnected.1 exConnected.2).1.1
            (Bucket (CS := specStates) "sales" exFailingTransport
               exConnected.1 exConnected.2).1.2).1.2).2 = Some cli' /\
    (cid cli < cid cli')%nat /\ getBootstrapError cli' = None.
Proof.
  destruct (Bucket_after_Close_recreates (CS := specStates) "sales" exFailingTransport
              "sales" goodTransport
              (map_to_list (connections (Bucket (CS := specStates) "sales"
                                           exFailingTransport
                                           exConnected.1 exConnected.2).1.2))
              exConnected.1 exConnected.2 exConnected_registryOK (reflexivity _))
    as (cli & cli' & H1 & H2 & _ & Hlt & _ & Hb & _).
  exists cli, cli'. auto.
Defined.

Lemma exMixed_registry :
  map_to_list (connections exMixed.2) =
    [(Hash (ClientStates := specStates)
        (bucketState (ClientStates := specStates) (sb exMixed.2) "c"),
      exMixedClient);
     (Hash (ClientStates := specStates)
        (bucketState (ClientStates := specStates) (sb exMixed.2) "a"),
      {| cid := 1;
         state := bucketState (ClientStates := specStates) (sb exMixed.2) "a";
         session := exTransport None (Some "authentication failure") None false false;
         bootstrapErr := Some "authentication failure" |});
     (Hash (ClientStates := specStates)
        (bucketState (ClientStates := specStates) (sb exMixed.2) "b"),
      {| cid := 2;
         state := bucketState (ClientStates := specStates) (sb exMixed.2) "b";
         session := exTransport None None None false false;
         bootstrapErr := None |})].
Proof. vm_compute. reflexivity. Qed.

Lemma randomClient_unique_usable_witness :
  let order := reverse (map_to_list (connections exMixed.2)) in
  order ≡ₚ map_to_list (connections exMixed.2) /\
  usable exMixedClient = true /\
  randomClient (CS := specStates) order exMixed.2 = Ok exMixedClient.
Proof.
  intros order.
  assert (Hp : order ≡ₚ map_to_list (connections exMixed.2))
    by apply reverse_Permutation.
  split; [exact Hp | ]. split; [reflexivity | ].
  apply (randomClient_unique_usable (CS := specStates) exMixed.2 order
           (Hash (ClientStates := specStates)
              (bucketState (ClientStates := specStates) (sb exMixed.2) "c"))
           exMixedClient Hp).
  - apply elem_of_map_to_list. rewrite exMixed_registry.
    apply list_elem_of_In. simpl. tauto.
  - reflexivity.
  - intros key' cli' Hk Hu. apply elem_of_map_to_list in Hk.
    rewrite exMixed_registry in Hk.
    repeat (apply elem_of_cons in Hk; destruct Hk as [Hk|Hk];
            [injection Hk as -> ->; first [reflexivity | discriminate Hu] | ]).
    apply elem_of_nil in Hk. contradiction.
Defined.

Lemma randomClient_outcome_and_order_witness :
  let order1 := map_to_list (connections exMixed.2) in
  let order2 := reverse (map_to_list (connections exMixed.2)) in
  order2 ≡ₚ map_to_list (connections exMixed.2) /\
  ((exists cli, randomClient (CS := specStates) order1 exMixed.2 = Ok cli) <->
   (exists cli, randomClient (CS := specStates) order2 exMixed.2 = Ok cli)).
Proof.
  intros order1 order2.
  assert (Hp : order2 ≡ₚ map_to_list (connections exMixed.2))
    by apply reverse_Permutation.
  split; [exact Hp | ].
  apply (randomClient_outcome_and_order (CS := specStates) exMixed.2 order1 order2
           (reflexivity _) Hp).
Defined.

Lemma BucketCalls_distinct_fingerprints_witness :
  exists bi bj ci cj,
    exTwoBuckets.2 = [bi; bj] /\ hash bi <> hash bj /\
    cachedClient bi = Some ci /\ cachedClient bj = Some cj /\
    cid ci <> cid cj.
Proof.
  assert (H : exists bi bj ci cj,
            exTwoBuckets.2 = [bi; bj] /\ hash bi <> hash bj /\
            cachedClient bi = Some ci /\ cachedClient bj = Some cj).
  { vm_compute. do 4 eexists. split; [reflexivity | ].
    split; [discriminate | split; reflexivity]. }
  destruct H as (bi & bj & ci & cj & Hbs & Hne & Hi & Hj).
  exists bi, bj, ci, cj. do 4 (split; [assumption | ]).
  apply (BucketCalls_distinct_fingerprints (CS := specStates)
           [("a", goodTransport); ("b", goodTransport)] exConnected.1 exConnected.2
           bi bj ci cj exConnected_registryOK).
  - fold exTwoBuckets. rewrite Hbs. apply list_elem_of_here.
  - fold exTwoBuckets. rewrite Hbs. apply list_elem_of_further, list_elem_of_here.
  - exact Hne.
  - exact Hi.
  - exact Hj.
Defined.

Lemma racing_callers_lose_a_handle_witness :
  connections exConnected.2 !! exSalesKey = None /\
  exists cli1 cli2 : client (CS := specStates),
    cid cli1 = 1%nat /\ cid cli2 = 2%nat /\
    @connections specStates exRace.2 !! exSalesKey = Some cli2 /\
    exists seg,
      trace (Close (CS := specStates) (map_to_list (@connections specStates exRace.2))
               exRace.1.2 exRace.2).1.1 = (trace exRace.1.2 ++ seg)%list /\
      cid cli1 ∉ closedIds seg.
Proof.
  assert (Hmiss : connections exConnected.2 !! exSalesKey = None)
    by (vm_compute; reflexivity).
  split; [exact Hmiss | ].
  destruct (racing_callers_lose_a_handle (CS := specStates) "sales"
              goodTransport goodTransport exConnected.1 exConnected.2 Hmiss
              exConnected_registryOK)
    as (k1 & k2 & cli1 & cli2 & _ & _ & _ & H1 & H2 & _ & _ & Hk & _ & Hclose).
  - intros cc Hcc. rewrite exConnected_slot in Hcc. injection Hcc as <-.
    vm_compute. lia.
  - exists cli1, cli2.
    split; [rewrite H1; vm_compute; reflexivity | ].
    split; [rewrite H2; vm_compute; reflexivity | ].
    split; [exact Hk | ].
    apply (Hclose (map_to_list (@connections specStates exRace.2))). reflexivity.
Defined.
